(** * Matrix Operations Tool: the parser, the operation handlers and the
      formatter of [Task3/matrix_tool.py], embedded and verified.

    The Python program is embedded shallowly:
    - a [str] is a list of characters (code points below 256);
    - a [float] is an IEEE 754 binary64 number, [SpecFloat.spec_float],
      with the standard library's correctly rounded operations;
    - an exception is a value of [exn], and a computation that may raise
      returns [exn + A];
    - [numpy] arrays of dimension two are records of a shape and rows;
    - the widgets read and written by the handlers are the fields of the
      record [App]. *)

From Stdlib Require Import ZArith Ascii String List Bool Lia.
From Stdlib Require Import Floats.SpecFloat.
From stdpp Require Import base option list gmap.
Import ListNotations.

Local Open Scope Z_scope.

(* ===================================================================== *)
(** ** Python strings *)
(* ===================================================================== *)

Module PyStr.

(** A Python [str], as the list of its characters. *)
Definition str : Type := list ascii.

Definition py (s : string) : str := list_ascii_of_string s.

Definition code (c : ascii) : N := N_of_ascii c.

(** [c.isspace()] for a code point below 256: TAB..CR, FS..US, SPACE,
    NEL and NBSP. *)
Definition isspace (c : ascii) : bool :=
  let n := code c in
  ((9 <=? n) && (n <=? 13) || (28 <=? n) && (n <=? 32)
   || (n =? 133) || (n =? 160))%N.

(** The line boundaries of [str.splitlines] below 256:
    LF, VT, FF, CR, FS, GS, RS and NEL. *)
Definition islinebreak (c : ascii) : bool :=
  let n := code c in
  ((10 <=? n) && (n <=? 13) || (28 <=? n) && (n <=? 30) || (n =? 133))%N.

Definition CR : ascii := ascii_of_N 13.
Definition LF : ascii := ascii_of_N 10.

(** [s.lstrip()], [s.rstrip()] and [s.strip()]. *)
Fixpoint lstrip (s : str) : str :=
  match s with
  | c :: s' => if isspace c then lstrip s' else s
  | [] => []
  end.

Definition rstrip (s : str) : str := rev (lstrip (rev s)).

Definition strip (s : str) : str := rstrip (lstrip s).

(** [s.splitlines()]: [cur] holds the characters of the line being read,
    last one first, and [cr] tells that the character before was a CR
    that ended a line: the LF after it belongs to the same boundary.  A
    boundary at the very end opens no further line. *)
Fixpoint splitlines_from (cr : bool) (cur : str) (s : str) : list str :=
  match s with
  | [] => match cur with [] => [] | _ => [rev cur] end
  | c :: s' =>
      if cr && Ascii.eqb c LF then splitlines_from false cur s'
      else if islinebreak c
           then rev cur :: splitlines_from (Ascii.eqb c CR) [] s'
           else splitlines_from false (c :: cur) s'
  end.

Definition splitlines (s : str) : list str := splitlines_from false [] s.

(** [s.replace(a, b)] for one-character [a] and [b]. *)
Definition replace (a b : ascii) (s : str) : str :=
  map (fun c => if Ascii.eqb c a then b else c) s.

(** [s.split()]: the maximal runs of characters that are not whitespace. *)
Fixpoint split_from (cur : str) (s : str) : list str :=
  match s with
  | [] => match cur with [] => [] | _ => [rev cur] end
  | c :: s' =>
      if isspace c then
        match cur with
        | [] => split_from [] s'
        | _ => rev cur :: split_from [] s'
        end
      else split_from (c :: cur) s'
  end.

Definition split (s : str) : list str := split_from [] s.

(** [sep.join(parts)]. *)
Fixpoint join (sep : str) (parts : list str) : str :=
  match parts with
  | [] => []
  | [p] => p
  | p :: ps => p ++ sep ++ join sep ps
  end.

(** Truthiness of a string: it is not empty. *)
Definition nonempty (s : str) : bool :=
  match s with [] => false | _ => true end.

(** A string of whitespace only. *)
Definition spaces (w : str) : Prop := forallb isspace w = true.

End PyStr.
Export PyStr.

(* ===================================================================== *)
(** ** Python floats *)
(* ===================================================================== *)

Module PyFloat.

(** A Python [float] (and a [numpy.float64]) is a binary64 number. *)
Definition float : Type := spec_float.

Definition prec : Z := 53.
Definition emax : Z := 1024.

Definition fadd : float -> float -> float := SFadd prec emax.
Definition fsub : float -> float -> float := SFsub prec emax.
Definition fmul : float -> float -> float := SFmul prec emax.
Definition fabs : float -> float := SFabs.
Definition fltb : float -> float -> bool := SFltb.

Definition fzero : float := S754_zero false.


Definition is_finite (x : float) : bool :=
  match x with
  | S754_zero _ | S754_finite _ _ _ => true
  | _ => false
  end.

(** The same float, bit for bit (the two zeros differ, NaN is itself). *)
Definition same_float (x y : float) : bool :=
  match x, y with
  | S754_zero s, S754_zero t => Bool.eqb s t
  | S754_infinity s, S754_infinity t => Bool.eqb s t
  | S754_nan, S754_nan => true
  | S754_finite s m e, S754_finite t n f =>
      Bool.eqb s t && Pos.eqb m n && Z.eqb e f
  | _, _ => false
  end.

(** [float(n)] for an [int] [n]. *)
Definition float_of_int (n : Z) : float :=
  binary_normalize prec emax n 0 false.

(** The float nearest to [(-1)^neg * d * 10^k] (ties to even), as
    [float] computes it for a decimal literal with digits [d]. *)
Definition float_of_decimal (neg : bool) (d : Z) (k : Z) : float :=
  match d with
  | Zpos p =>
      if 0 <=? k
      then binary_normalize prec emax (cond_Zopp neg (d * 10 ^ k)) 0 neg
      else
        let '(q, e, l) :=
          SFdiv_core_binary prec emax d 0 (10 ^ (- k)) 0 in
        binary_round_aux prec emax neg q e l
  | _ => S754_zero neg
  end.

(** *** [float(s)] for a string *)

Definition isdigit (c : ascii) : bool :=
  let n := N_of_ascii c in ((48 <=? n) && (n <=? 57))%N.

Definition digit_value (c : ascii) : Z := Z.of_N (N_of_ascii c) - 48.

Definition lower (c : ascii) : ascii :=
  let n := N_of_ascii c in
  if ((65 <=? n) && (n <=? 90))%N then ascii_of_N (n + 32) else c.

Definition is_char (a : ascii) (c : ascii) : bool := Ascii.eqb a c.

(** Underscores may only stand between two digits; they are dropped.
    [prev] is the character before [s], if any. *)
Fixpoint drop_underscores (prev : option ascii) (s : str) : option str :=
  match s with
  | [] =>
      match prev with
      | Some p => if is_char "_" p then None else Some []
      | None => Some []
      end
  | c :: s' =>
      let prev_digit :=
        match prev with Some p => isdigit p | None => false end in
      let prev_under :=
        match prev with Some p => is_char "_" p | None => false end in
      if is_char "_" c then
        if prev_digit then drop_underscores (Some c) s' else None
      else if prev_under && negb (isdigit c) then None
      else option_map (cons c) (drop_underscores (Some c) s')
  end.

(** The longest prefix of digits: its value continuing [acc], how many
    digits it has, and what follows. *)
Fixpoint read_digits (acc : Z) (n : Z) (s : str) : Z * Z * str :=
  match s with
  | c :: s' =>
      if isdigit c then read_digits (10 * acc + digit_value c) (n + 1) s'
      else (acc, n, s)
  | [] => (acc, n, [])
  end.

Definition read_sign (s : str) : bool * str :=
  match s with
  | c :: s' =>
      if is_char "-" c then (true, s')
      else if is_char "+" c then (false, s')
      else (false, s)
  | [] => (false, [])
  end.

(** The exponent part, [e] or [E], an optional sign and digits; an [e]
    that no digit follows is not part of the number. *)
Definition read_exponent (s : str) : Z * str :=
  match s with
  | c :: s' =>
      if is_char "e" (lower c) then
        let '(neg, s1) := read_sign s' in
        let '(v, n, s2) := read_digits 0 0 s1 in
        if n =? 0 then (0, s) else (cond_Zopp neg v, s2)
      else (0, s)
  | [] => (0, [])
  end.

(** An unsigned decimal number: digits, an optional point and digits, an
    optional exponent; at least one digit before the exponent. *)
Definition read_number (neg : bool) (s : str) : option (float * str) :=
  let '(ip, ni, s1) := read_digits 0 0 s in
  let '(d, nf, s2) :=
    match s1 with
    | c :: s1' =>
        if is_char "." c then
          let '(d, nf, s2) := read_digits ip 0 s1' in (d, nf, s2)
        else (ip, 0, s1)
    | [] => (ip, 0, [])
    end in
  if ni + nf =? 0 then None
  else
    let '(e, s3) := read_exponent s2 in
    Some (float_of_decimal neg d (e - nf), s3).

Definition float_of_str (s : str) : option float :=
  match drop_underscores None (strip s) with
  | None => None
  | Some t =>
      let '(neg, u) := read_sign t in
      let name := string_of_list_ascii (map lower u) in
      if (String.eqb name "inf" || String.eqb name "infinity")%bool
      then Some (S754_infinity neg)
      else if String.eqb name "nan" then Some S754_nan
      else
        match read_number neg u with
        | Some (x, []) => Some x
        | _ => None
        end
  end.

(** *** Decimal digits of a float *)

(** [str(n)] for an [int] [n]. *)
Fixpoint digits_of_pos_fuel (fuel : nat) (n : Z) (acc : str) : str :=
  match fuel with
  | O => acc
  | S fuel' =>
      let c := ascii_of_N (Z.to_N (48 + n mod 10)) in
      if n <? 10 then c :: acc
      else digits_of_pos_fuel fuel' (n / 10) (c :: acc)
  end.

Definition digits_of_nat (n : Z) : str :=
  digits_of_pos_fuel (S (Z.to_nat (Z.log2 n))) n [].

Definition str_of_int (n : Z) : str :=
  if n <? 0 then "-"%char :: digits_of_nat (- n) else digits_of_nat n.

(** The positive rational [m * 2^e] as a fraction. *)
Definition fraction (m : positive) (e : Z) : Z * Z :=
  if 0 <=? e then (Zpos m * 2 ^ e, 1) else (Zpos m, 2 ^ (- e)).

(** [scale10 (a, b) k] is the fraction [a / b * 10^k]. *)
Definition scale10 (f : Z * Z) (k : Z) : Z * Z :=
  let '(a, b) := f in
  if 0 <=? k then (a * 10 ^ k, b) else (a, b * 10 ^ (- k)).

(** The decimal exponent of a positive fraction: the [x] with
    [10^x <= a/b < 10^(x+1)], searched downwards from an estimate. *)
Fixpoint exponent10_from (fuel : nat) (f : Z * Z) (x : Z) : Z :=
  match fuel with
  | O => x
  | S fuel' =>
      let '(a, b) := scale10 f (- x) in
      if b <=? a then x else exponent10_from fuel' f (x - 1)
  end.

Definition exponent10 (f : Z * Z) : Z :=
  let '(a, b) := f in
  let est := ((Z.log2 a - Z.log2 b + 1) * 30103) / 100000 + 1 in
  exponent10_from 8 f est.

(** Rounding [a/b] to an integer: down, and to nearest with ties to
    even. *)
Definition round_fraction (f : Z * Z) : Z :=
  let '(a, b) := f in
  let q := a / b in
  let r := a mod b in
  match 2 * r ?= b with
  | Lt => q
  | Gt => q + 1
  | Eq => if Z.even q then q else q + 1
  end.

(** [round(x)] for a float: the nearest [int], ties to even; not defined
    on infinities and NaN. *)
Definition round_half_even (x : float) : option Z :=
  match x with
  | S754_zero _ => Some 0
  | S754_finite s m e => Some (cond_Zopp s (round_fraction (fraction m e)))
  | _ => None
  end.

(** Digits without trailing zeros, and how many zeros were dropped. *)
Fixpoint drop_zeros_fuel (fuel : nat) (d : Z) (z : Z) : Z * Z :=
  match fuel with
  | O => (d, z)
  | S fuel' =>
      if (d mod 10 =? 0) && negb (d =? 0)
      then drop_zeros_fuel fuel' (d / 10) (z + 1)
      else (d, z)
  end.

Definition drop_zeros (d : Z) : Z * Z :=
  drop_zeros_fuel (S (Z.to_nat (Z.log2 d))) d 0.

(** The shortest decimal [d * 10^k] that [float] reads back as the
    positive float [m * 2^e]; of two of the same length, the nearer one.
    Tried with [n] digits, [n] from [n0] upwards. *)
Fixpoint shortest_from (fuel : nat) (m : positive) (e : Z) (x10 : Z) (n : Z)
  : Z * Z :=
  let k := x10 - n + 1 in
  let f := scale10 (fraction m e) (- k) in
  let lo := fst f / snd f in
  let near := round_fraction f in
  let reads d :=
    same_float (float_of_decimal false d k) (S754_finite false m e) in
  match fuel with
  | O => (near, k)
  | S fuel' =>
      if reads near then (near, k)
      else if reads lo then (lo, k)
      else if reads (lo + 1) then (lo + 1, k)
      else shortest_from fuel' m e x10 (n + 1)
  end.

Definition shortest_decimal (m : positive) (e : Z) : Z * Z :=
  let '(d, k) := shortest_from 16 m e (exponent10 (fraction m e)) 1 in
  let '(d', z) := drop_zeros d in
  (d', k + z).

(** The decimal with [n] significant digits nearest to [m * 2^e], ties to
    even, without its trailing zeros. *)
Definition rounded_decimal (n : Z) (m : positive) (e : Z) : Z * Z :=
  let k := exponent10 (fraction m e) - n + 1 in
  let d := round_fraction (scale10 (fraction m e) (- k)) in
  let '(d', z) := drop_zeros d in
  (d', k + z).

Definition zeros (n : Z) : str := repeat "0"%char (Z.to_nat n).

(** The exponent of the scientific notation: a sign and at least two
    digits. *)
Definition exponent_text (x : Z) : str :=
  let a := Z.abs x in
  "e"%char :: (if x <? 0 then "-"%char else "+"%char)
    :: (if a <? 10 then ["0"%char] else []) ++ digits_of_nat a.

(** The digits [ds] with a point after the first [p] of them, [p]
    possibly below one or beyond their number; [dot0] asks for [.0] after
    a whole number. *)
Definition fixed_text (ds : str) (p : Z) (dot0 : bool) : str :=
  let n := Z.of_nat (length ds) in
  if p <=? 0 then py "0." ++ zeros (- p) ++ ds
  else if n <=? p then ds ++ zeros (p - n) ++ (if dot0 then py ".0" else [])
  else take (Z.to_nat p) ds ++ "."%char :: drop (Z.to_nat p) ds.

Definition scientific_text (ds : str) (x : Z) : str :=
  match ds with
  | [] => []
  | [c] => c :: exponent_text x
  | c :: ds' => c :: "."%char :: ds' ++ exponent_text x
  end.

Definition sign_text (s : bool) : str := if s then ["-"%char] else [].

(** [str(x)] and [repr(x)]: the shortest digits that read back as [x],
    in scientific notation below [1e-4] and from [1e16] on. *)
Definition str_of_float (x : float) : str :=
  match x with
  | S754_nan => py "nan"
  | S754_infinity s => sign_text s ++ py "inf"
  | S754_zero s => sign_text s ++ py "0.0"
  | S754_finite s m e =>
      let '(d, k) := shortest_decimal m e in
      let ds := digits_of_nat d in
      let p := Z.of_nat (length ds) + k in
      sign_text s ++
        (if (-4 <? p) && (p <=? 16) then fixed_text ds p true
         else scientific_text ds (p - 1))
  end.

(** [format(x, '.6g')], for the precision [n = 6]: [n] significant
    digits, trailing zeros removed, in scientific notation below [1e-4]
    and from [10^n] on. *)
Definition format_g (n : Z) (x : float) : str :=
  match x with
  | S754_nan => py "nan"
  | S754_infinity s => sign_text s ++ py "inf"
  | S754_zero s => sign_text s ++ py "0"
  | S754_finite s m e =>
      let '(d, k) := rounded_decimal n m e in
      let ds := digits_of_nat d in
      let p := Z.of_nat (length ds) + k in
      sign_text s ++
        (if (-4 <? p) && (p <=? n) then fixed_text ds p false
         else scientific_text ds (p - 1))
  end.

End PyFloat.
Export PyFloat.

(* ===================================================================== *)
(** ** Exceptions *)
(* ===================================================================== *)

Module Py.

(** The exceptions the program raises or lets its libraries raise; each
    carries the text that [str(err)] returns. *)
Inductive exn : Type :=
| ValueError (msg : str)
| OverflowError (msg : str).

Definition message (e : exn) : str :=
  match e with ValueError m | OverflowError m => m end.

(** A computation that returns an [A] or raises. *)
Definition result (A : Type) : Type := (exn + A)%type.

Definition ret {A} (a : A) : result A := inr a.
Definition raise {A} (e : exn) : result A := inl e.
Definition bind {A B} (c : result A) (k : A -> result B) : result B :=
  match c with
  | inl e => inl e
  | inr a => k a
  end.

End Py.
Export Py.

Global Instance result_ret : MRet result := @ret.
Global Instance result_bind : MBind result := fun A B k c => bind c k.

(* ===================================================================== *)
(** ** numpy arrays of dimension two *)
(* ===================================================================== *)

Module Numpy.

(** An array of dimension two: its [shape] and its rows.  The shape is
    kept beside the rows because an array may have rows of no column, or
    columns of no row. *)
Record ndarray : Type := { shape : nat * nat; rows : list (list float) }.

Definition nrows (a : ndarray) : nat := fst (shape a).
Definition ncols (a : ndarray) : nat := snd (shape a).

(** The rows are as many and as long as the shape says. *)
Definition wf (a : ndarray) : Prop :=
  length (rows a) = nrows a /\ Forall (fun r => length r = ncols a) (rows a).

(** [a[i][j]] *)
Definition item (a : ndarray) (i j : nat) : option float :=
  match rows a !! i with
  | Some r => r !! j
  | None => None
  end.

(** [np.array(rs)] for a list, not empty, of rows of one length. *)
Definition array (rs : list (list float)) : ndarray :=
  {| shape := (length rs, match rs with r :: _ => length r | [] => O end);
     rows := rs |}.

(** [a + b] and [a - b] for arrays of one shape. *)
Definition add (a b : ndarray) : ndarray :=
  {| shape := shape a;
     rows := zip_with (zip_with fadd) (rows a) (rows b) |}.

Definition sub (a b : ndarray) : ndarray :=
  {| shape := shape a;
     rows := zip_with (zip_with fsub) (rows a) (rows b) |}.

(** Column [j] of [a]. *)
Definition column (a : ndarray) (j : nat) : list float :=
  map (fun r => nth j r fzero) (rows a).

(** [a.T] *)
Definition T (a : ndarray) : ndarray :=
  {| shape := (ncols a, nrows a);
     rows := map (column a) (seq 0 (ncols a)) |}.

(** *** The routines of BLAS and LAPACK

    [a.dot(b)] and [np.linalg.det(a)] are not code of the program: numpy
    hands them to the BLAS and LAPACK routines it is linked with.  Which
    float they return depends on the order of their additions and on
    their use of fused multiply-adds, and for [det] on an LU factorisation
    with pivoting whose diagonal is multiplied through [log] and [exp].
    The program fixes none of it, so the two routines are parameters of
    the model. *)
Class Linalg : Type := {
  dot : ndarray -> ndarray -> ndarray;
  det : ndarray -> float
}.



(** One implementation, to run the examples with: the products rounded
    and added from the first column on, and the determinant expanded
    along the first row. *)
Definition vdot (u v : list float) : float :=
  fold_left (fun acc xy => fadd acc (fmul (fst xy) (snd xy)))
            (combine u v) fzero.

Definition dot_in_order (a b : ndarray) : ndarray :=
  {| shape := (nrows a, ncols b);
     rows := map (fun r => map (fun j => vdot r (column b j))
                               (seq 0 (ncols b)))
                 (rows a) |}.

(** The rows of [rs] without row 0 and column [j]. *)
Definition minor (j : nat) (rs : list (list float)) : list (list float) :=
  map (fun r => take j r ++ drop (S j) r) (tl rs).

Fixpoint det_rows (n : nat) (rs : list (list float)) : float :=
  match n with
  | O => float_of_int 1
  | S n' =>
      fold_left
        (fun acc j =>
           let term := fmul (nth j (hd [] rs) fzero)
                            (det_rows n' (minor j rs)) in
           if Nat.even j then fadd acc term else fsub acc term)
        (seq 0 n) fzero
  end.

Definition det_by_minors (a : ndarray) : float := det_rows (nrows a) (rows a).

Definition in_order : Linalg := {| dot := dot_in_order; det := det_by_minors |}.

End Numpy.

(* ===================================================================== *)
(** ** The parser and the printer of matrices *)
(* ===================================================================== *)

Definition msg_empty : str := py "Input is empty".
Definition msg_non_numeric (ln : str) : str :=
  py "Non-numeric value found in line: '" ++ ln ++ py "'".
Definition msg_ragged : str := py "Rows have inconsistent number of columns".

(** The failures of the parser, by the names the specification gives
    them. *)
Definition EmptyInput : exn := ValueError msg_empty.
Definition NonNumericToken (ln : str) : exn := ValueError (msg_non_numeric ln).
Definition RaggedRows : exn := ValueError msg_ragged.

(** [[ln.strip() for ln in ls if ln.strip()]] *)
Definition kept_lines (ls : list str) : list str :=
  map strip (List.filter (fun ln => nonempty (strip ln)) ls).

(** [[ln.strip() for ln in text.strip().splitlines() if ln.strip()]] *)
Definition stripped_lines (text : str) : list str :=
  kept_lines (splitlines (strip text)).

(** [[p for p in ln.replace(',', ' ').split() if p]] *)
Definition parts_of (ln : str) : list str :=
  List.filter nonempty (split (replace "," " " ln)).

(** The loop over the lines; [rows] holds the rows read so far, and the
    first line with a part that [float] rejects ends it. *)
Fixpoint parse_lines (lines : list str) (rows : list (list float))
  : result (list (list float)) :=
  match lines with
  | [] => ret rows
  | ln :: lines' =>
      match mapM float_of_str (parts_of ln) with
      | Some row => parse_lines lines' (rows ++ [row])
      | None => raise (NonNumericToken ln)
      end
  end.

Definition parse_matrix (text : str) : result Numpy.ndarray :=
  let lines := stripped_lines text in
  if negb (match lines with [] => false | _ => true end)
  then raise EmptyInput
  else
    rows ← parse_lines lines [];
    let lengths : gset nat := list_to_set (map (@length float) rows) in
    if negb (size lengths =? 1)%nat
    then raise RaggedRows
    else ret (Numpy.array rows).

Definition matrix_to_text (mat : Numpy.ndarray) : str :=
  let lines := map (fun r => join (py " ") (map str_of_float r))
                   (Numpy.rows mat) in
  join [LF] lines.

(* ===================================================================== *)
(** ** The application *)
(* ===================================================================== *)

Module Tk.

Import Numpy.

(** What [current_result] holds: an array or a float. *)
Inductive value : Type :=
| Matrix (mat : ndarray)
| Scalar (x : float).

(** The widgets shown in the result frame. *)
Inductive widget : Type :=
| Message (text : str)
| Treeview (headings : list str) (items : list (list str))
| Label (text : str).

(** The message boxes shown to the user. *)
Inductive dialog : Type :=
| showerror (title message : str)
| showinfo (title message : str).

(** The state of [MatrixToolApp] the handlers read and write. *)
Record App : Type := {
  a_txt : str;
  b_txt : str;
  single_choice : str;
  result_frame : list widget;
  current_result : option value;
  status : str;
  clipboard : str;
  dialogs : list dialog
}.

(** A method of the application: it may change the state, and it returns
    or raises. *)
Definition action (A : Type) : Type := App -> result A * App.

Definition areturn {A} (a : A) : action A := fun app => (inr a, app).
Definition araise {A} (e : exn) : action A := fun app => (inl e, app).
Definition abind {A B} (c : action A) (k : A -> action B) : action B :=
  fun app =>
    match c app with
    | (inr a, app') => k a app'
    | (inl e, app') => (inl e, app')
    end.

(** A value or an exception of a computation without effect. *)
Definition lift {A} (r : result A) : action A := fun app => (r, app).

Definition read {A} (field : App -> A) : action A :=
  fun app => (inr (field app), app).
Definition update (f : App -> App) : action unit :=
  fun app => (inr tt, f app).

(** [try: body except Exception as e: handler(e)] *)
Definition try_except {A} (body : action A) (handler : exn -> action A)
  : action A :=
  fun app =>
    match body app with
    | (inl e, app') => handler e app'
    | (inr a, app') => (inr a, app')
    end.

(** The state a handler leaves. *)
Definition run {A} (c : action A) (app : App) : App := snd (c app).

End Tk.

Global Instance action_ret : MRet Tk.action := @Tk.areturn.
Global Instance action_bind : MBind Tk.action := fun A B k c => Tk.abind c k.

Module MatrixToolApp.

Import Numpy Tk.

Definition set_result_frame (ws : list widget) (app : App) : App :=
  {| a_txt := a_txt app; b_txt := b_txt app;
     single_choice := single_choice app; result_frame := ws;
     current_result := current_result app; status := status app;
     clipboard := clipboard app; dialogs := dialogs app |}.

Definition set_current_result (v : option value) (app : App) : App :=
  {| a_txt := a_txt app; b_txt := b_txt app;
     single_choice := single_choice app; result_frame := result_frame app;
     current_result := v; status := status app;
     clipboard := clipboard app; dialogs := dialogs app |}.

Definition set_status (s : str) (app : App) : App :=
  {| a_txt := a_txt app; b_txt := b_txt app;
     single_choice := single_choice app; result_frame := result_frame app;
     current_result := current_result app; status := s;
     clipboard := clipboard app; dialogs := dialogs app |}.

Definition set_clipboard (s : str) (app : App) : App :=
  {| a_txt := a_txt app; b_txt := b_txt app;
     single_choice := single_choice app; result_frame := result_frame app;
     current_result := current_result app; status := status app;
     clipboard := s; dialogs := dialogs app |}.

Definition set_texts (a b : str) (app : App) : App :=
  {| a_txt := a; b_txt := b;
     single_choice := single_choice app; result_frame := result_frame app;
     current_result := current_result app; status := status app;
     clipboard := clipboard app; dialogs := dialogs app |}.

Definition show_dialog (d : dialog) (app : App) : App :=
  {| a_txt := a_txt app; b_txt := b_txt app;
     single_choice := single_choice app; result_frame := result_frame app;
     current_result := current_result app; status := status app;
     clipboard := clipboard app; dialogs := dialogs app ++ [d] |}.

(** [txt.get('1.0', tk.END)]: the text of the widget and the line break
    that ends it. *)
Definition text_get (txt : App -> str) : action str :=
  s ← read txt; mret (s ++ [LF]).

(** *** UI helpers *)

Definition _create_result_area : action unit :=
  update (set_result_frame []);;
  update (set_result_frame [Message (py "No result yet")]);;
  update (set_current_result None).

(** [round(x)] for a float [x]. *)
Definition round (x : float) : result Z :=
  match round_half_even x with
  | Some n => ret n
  | None =>
      match x with
      | S754_nan =>
          raise (ValueError (py "cannot convert float NaN to integer"))
      | _ =>
          raise (OverflowError (py "cannot convert float infinity to integer"))
      end
  end.

(** The literal [1e-9]. *)
Definition eps : float := float_of_decimal false 1 (-9).

Definition _fmt (x : float) : result str :=
  r ← round x;
  if fltb (fabs (fsub x (float_of_int r))) eps
  then r' ← round x; ret (str_of_int r')
  else ret (format_g 6 x).

Definition shape_text (mat : ndarray) : str :=
  str_of_int (Z.of_nat (nrows mat)) ++ [ascii_of_N 215]
    ++ str_of_int (Z.of_nat (ncols mat)).

Definition _show_matrix_result (mat : ndarray) : action unit :=
  update (set_result_frame []);;
  let headings :=
    map (fun i => py "Col " ++ str_of_int (Z.of_nat i)) (seq 0 (ncols mat)) in
  items ← lift (mapM (fun r => mapM _fmt r) (rows mat));
  update (set_result_frame [Treeview headings items]);;
  update (set_current_result (Some (Matrix mat)));;
  update (set_status (py "Result: " ++ shape_text mat ++ py " matrix")).

Definition _show_scalar_result (x : float) (label : str) : action unit :=
  update (set_result_frame []);;
  text ← lift (_fmt x);
  update (set_result_frame [Label (label ++ py ": " ++ text)]);;
  update (set_current_result (Some (Scalar x)));;
  update (set_status (label ++ py " shown")).

(** *** Operations *)

Definition _get_matrices : action (option ndarray * option ndarray) :=
  a_str ← text_get a_txt;
  b_str ← text_get b_txt;
  a ← (if nonempty (strip a_str)
       then lift (mat ← parse_matrix a_str; mret (Some mat))
       else mret None);
  b ← (if nonempty (strip b_str)
       then lift (mat ← parse_matrix b_str; mret (Some mat))
       else mret None);
  mret (a, b).

Definition _handle_error (err : exn) : action unit :=
  update (show_dialog (showerror (py "Error") (message err)));;
  update (set_status (py "Error: " ++ message err)).

(** The failures of the operations, by the names the specification
    gives them. *)
Definition MissingOperands (operation : str) : exn :=
  ValueError (py "Both matrices A and B are required for " ++ operation).
Definition MissingOperand (choice : str) : exn :=
  ValueError (py "Matrix " ++ choice ++ py " is empty").
Definition ShapeMismatch (operation : str) : exn :=
  ValueError (py "Matrices must have the same shape for " ++ operation).
Definition InnerDimMismatch : exn :=
  ValueError (py "Inner dimensions must match for multiplication").
Definition NotSquare : exn :=
  ValueError (py "Determinant requires a square matrix").

Definition shape_eqb (s t : nat * nat) : bool :=
  Nat.eqb (fst s) (fst t) && Nat.eqb (snd s) (snd t).

Definition str_eqb (s t : str) : bool :=
  String.eqb (string_of_list_ascii s) (string_of_list_ascii t).

Definition add : action unit :=
  try_except
    ('(a, b) ← _get_matrices;
     match a, b with
     | Some a, Some b =>
         if negb (shape_eqb (shape a) (shape b))
         then araise (ShapeMismatch (py "addition"))
         else let res := Numpy.add a b in _show_matrix_result res
     | _, _ => araise (MissingOperands (py "addition"))
     end)
    _handle_error.

Definition sub : action unit :=
  try_except
    ('(a, b) ← _get_matrices;
     match a, b with
     | Some a, Some b =>
         if negb (shape_eqb (shape a) (shape b))
         then araise (ShapeMismatch (py "subtraction"))
         else let res := Numpy.sub a b in _show_matrix_result res
     | _, _ => araise (MissingOperands (py "subtraction"))
     end)
    _handle_error.

Definition mul `{linalg : Linalg} : action unit :=
  try_except
    ('(a, b) ← _get_matrices;
     match a, b with
     | Some a, Some b =>
         if negb (Nat.eqb (ncols a) (nrows b))
         then araise InnerDimMismatch
         else let res := dot a b in _show_matrix_result res
     | _, _ => araise (MissingOperands (py "multiplication"))
     end)
    _handle_error.

Definition transpose : action unit :=
  try_except
    (choice ← read single_choice;
     '(a, b) ← _get_matrices;
     let mat := if str_eqb choice (py "A") then a else b in
     match mat with
     | None => araise (MissingOperand choice)
     | Some mat => let res := Numpy.T mat in _show_matrix_result res
     end)
    _handle_error.

Definition determinant `{linalg : Linalg} : action unit :=
  try_except
    (choice ← read single_choice;
     '(a, b) ← _get_matrices;
     let mat := if str_eqb choice (py "A") then a else b in
     match mat with
     | None => araise (MissingOperand choice)
     | Some mat =>
         if negb (Nat.eqb (nrows mat) (ncols mat))
         then araise NotSquare
         else let d := det mat in
              _show_scalar_result d (py "Determinant")
     end)
    _handle_error.

(** *** Utilities *)

Definition fill_example : action unit :=
  let ex_a := py "1 2 3" ++ [LF] ++ py "4 5 6" ++ [LF] ++ py "7 8 9" in
  let ex_b := py "9 8 7" ++ [LF] ++ py "6 5 4" ++ [LF] ++ py "3 2 1" in
  update (set_texts ex_a ex_b);;
  update (set_status (py "Example matrices filled")).

Definition clear_all : action unit :=
  update (set_texts [] []);;
  _create_result_area;;
  update (set_status (py "Cleared")).

Definition copy_result : action unit :=
  result ← read current_result;
  match result with
  | None => update (show_dialog (showinfo (py "Info") (py "No result to copy")))
  | Some v =>
      let txt := match v with
                 | Matrix mat => matrix_to_text mat
                 | Scalar x => str_of_float x
                 end in
      update (set_clipboard []);;
      update (fun app => set_clipboard (clipboard app ++ txt) app);;
      update (set_status (py "Result copied to clipboard"))
  end.

(** The application as [__init__] leaves it, the selector on A. *)
Definition init (clip : str) : App :=
  {| a_txt := []; b_txt := []; single_choice := py "A";
     result_frame := [Message (py "No result yet")];
     current_result := None; status := py "Ready";
     clipboard := clip; dialogs := [] |}.

End MatrixToolApp.

(* ===================================================================== *)
(** ** The notions of the specification *)
(* ===================================================================== *)

Module Spec.

Import Numpy Tk MatrixToolApp.

(** A line the program takes for blank: it holds whitespace only, so
    that [ln.strip()] is empty. *)
Definition blank (ln : str) : bool := forallb isspace ln.

(** Commas are treated as whitespace. *)
Definition separator (c : ascii) : bool := isspace c || Ascii.eqb c ",".

(** The tokens of a line: its maximal runs of characters that are not
    separators. *)
Fixpoint tokens_from (cur : str) (s : str) : list str :=
  match s with
  | [] => match cur with [] => [] | _ => [rev cur] end
  | c :: s' =>
      if separator c then
        match cur with
        | [] => tokens_from [] s'
        | _ => rev cur :: tokens_from [] s'
        end
      else tokens_from (c :: cur) s'
  end.

Definition tokens (ln : str) : list str := tokens_from [] ln.

(** The row of a line, when every token of it is a number. *)
Definition row_of (ln : str) : option (list float) :=
  mapM float_of_str (tokens ln).

Definition non_numeric (ln : str) : bool :=
  match row_of ln with Some _ => false | None => true end.

Definition same_length (rs : list (list float)) : bool :=
  match rs with
  | [] => true
  | r :: rs' => forallb (fun r' => Nat.eqb (length r') (length r)) rs'
  end.

(** The lines of the text that the program keeps: those that hold more
    than whitespace. *)
Definition rows_text (text : str) : list str :=
  List.filter (fun ln => negb (blank ln)) (splitlines text).

(** What [parse_matrix] computes, read off the lines it keeps: no line
    kept, a kept line with a token that is not a number (the error quotes
    the line, trimmed), lines of different token counts, or else the grid
    of the parsed tokens. *)
Definition grid_of (text : str) : result ndarray :=
  match rows_text text with
  | [] => raise EmptyInput
  | lines =>
      match List.find non_numeric lines with
      | Some ln => raise (NonNumericToken (strip ln))
      | None =>
          let rs := omap row_of lines in
          if same_length rs then ret (array rs) else raise RaggedRows
      end
  end.

(** The parser of section 4.1, in the words of the specification.
    Commas are treated as whitespace, so a blank line is a line of
    whitespace and commas only; blank lines are ignored.  The parser
    fails with [EmptyInput] when no row remains, with [NonNumericToken]
    when a token is not a number (the error identifies the line by its
    text, trimmed of the whitespace around it), with [RaggedRows] when
    the rows differ in their token counts, and returns the grid of the
    parsed tokens otherwise. *)
Definition blank_line (ln : str) : bool := forallb separator ln.

Definition row_lines (text : str) : list str :=
  List.filter (fun ln => negb (blank_line ln)) (splitlines text).

Definition parse (text : str) : result ndarray :=
  match row_lines text with
  | [] => raise EmptyInput
  | lines =>
      match List.find non_numeric lines with
      | Some ln => raise (NonNumericToken (strip ln))
      | None =>
          let rs := omap row_of lines in
          if same_length rs then ret (array rs) else raise RaggedRows
      end
  end.

(** The text form of a grid as sections 4.3 and 6 describe it: rows
    joined by line breaks, values joined by one space, every value
    rendered by the formatter. *)
Definition formatted_text (mat : ndarray) : result str :=
  items ← mapM (fun r => mapM _fmt r) (rows mat);
  ret (join [LF] (map (join (py " ")) items)).

(** A valid grid: rectangular, with a row and a column at least. *)
Definition valid_grid (g : ndarray) : Prop :=
  wf g /\ (1 <= nrows g)%nat /\ (1 <= ncols g)%nat.

(** A token: not empty, and free of separators. *)
Definition is_token (s : str) : bool :=
  nonempty s && forallb (fun c => negb (separator c)) s.

(** A string free of separators. *)
Definition clean (s : str) : Prop :=
  forallb (fun c => negb (separator c)) s = true.

(** The line [matrix_to_text] writes for a row. *)
Definition line_of (r : list float) : str :=
  join (py " ") (map str_of_float r).

(** [x] is printed as a token that reads back as [x]. *)
Definition reads_back (x : float) : bool :=
  is_token (str_of_float x) &&
  match float_of_str (str_of_float x) with
  | Some y => same_float x y
  | None => false
  end.

(** [a[i][j]], zero outside the array. *)
Definition entry (a : ndarray) (i j : nat) : float :=
  nth j (nth i (rows a) []) fzero.

(** The sum over [k < n] of [f k], left to right from zero. *)
Definition fsum (n : nat) (f : nat -> float) : float :=
  fold_left (fun acc k => fadd acc (f k)) (seq 0 n) fzero.

Definition all_finite (a : ndarray) : bool :=
  forallb (forallb is_finite) (rows a).

(** A handler fails with [e]: all it does is report [e]. *)
Definition fails_with (h : action unit) (app : App) (e : exn) : Prop :=
  run h app = run (_handle_error e) app.

(** The operand a text area yields: none when the text is blank. *)
Definition operand_of (text : str) : result (option ndarray) :=
  if nonempty (strip text)
  then mat ← parse_matrix text; mret (Some mat)
  else mret None.

(** What shows when the handler displays the array [m], formatted as
    [items], and the float [x], formatted as [text]. *)
Definition shown_matrix (m : ndarray) (items : list (list str)) (app : App)
  : App :=
  set_status (py "Result: " ++ shape_text m ++ py " matrix")
    (set_current_result (Some (Matrix m))
       (set_result_frame
          [Treeview (map (fun i => py "Col " ++ str_of_int (Z.of_nat i))
                         (seq 0 (ncols m))) items] app)).

Definition shown_scalar (x : float) (label text : str) (app : App) : App :=
  set_status (label ++ py " shown")
    (set_current_result (Some (Scalar x))
       (set_result_frame [Label (label ++ py ": " ++ text)] app)).

(** A handler computes the array [m], or the float [x], and displays it. *)
Definition returns_matrix (h : action unit) (app : App) (m : ndarray) : Prop :=
  run h app = run (try_except (_show_matrix_result m) _handle_error) app.

Definition returns_scalar (h : action unit) (app : App) (x : float)
           (label : str) : Prop :=
  run h app = run (try_except (_show_scalar_result x label) _handle_error) app.

(** The five operations. *)
Definition operation `{linalg : Linalg} (h : action unit) : Prop :=
  h = add \/ h = sub \/ h = mul \/ h = transpose \/ h = determinant.




(** The operands the handlers get from the two text areas. *)
Definition operands (app : App) : result (option ndarray * option ndarray) :=
  fst (_get_matrices app).

(** The operand the selector chooses. *)
Definition selected (app : App) (a b : option ndarray) : option ndarray :=
  if str_eqb (single_choice app) (py "A") then a else b.

End Spec.

(* ===================================================================== *)
(** ** Examples *)
(* ===================================================================== *)

Module Examples.

Import Numpy Tk MatrixToolApp.

Definition ints (rs : list (list Z)) : ndarray :=
  array (map (map float_of_int) rs).

(** The matrices of the Example button, their sum and their product. *)
Definition ex_a : ndarray := ints [[1; 2; 3]; [4; 5; 6]; [7; 8; 9]].
Definition ex_b : ndarray := ints [[9; 8; 7]; [6; 5; 4]; [3; 2; 1]].
Definition ex_sum : ndarray := ints [[10; 10; 10]; [10; 10; 10]; [10; 10; 10]].
Definition ex_difference : ndarray := ints [[-8; -6; -4]; [-2; 0; 2]; [4; 6; 8]].
Definition ex_product : ndarray :=
  ints [[30; 24; 18]; [84; 69; 54]; [138; 114; 90]].

(** The application after the Example button. *)
Definition ex_app : App := run fill_example (init []).


(** The matrix [[1, 2], [3, 4]] in the text area A, the selector on A. *)
Definition ex_square : App :=
  set_texts (py "1 2" ++ [LF] ++ py "3 4") [] (init []).

(** A text that does not parse in B, nothing in A, the selector on A. *)
Definition ex_bad_b : App := set_texts [] (py "1 x") (init []).

(** The float [-2.0000000000000004]. *)
Definition ex_lu_det : float := float_of_decimal true 20000000000000004 (-16).



End Examples.

(* ===================================================================== *)
(** ** Further notions: what the handlers read, what they show *)
(* ===================================================================== *)

Module Further.

Import Numpy Tk MatrixToolApp.

(** The fields an operation reads: the two texts and the selector. *)
Definition same_inputs (app app' : App) : Prop :=
  a_txt app' = a_txt app /\ b_txt app' = b_txt app
  /\ single_choice app' = single_choice app.

(** What the user sees of a result: the result held, the frame and the
    status line. *)
Definition same_display (app app' : App) : Prop :=
  current_result app' = current_result app
  /\ result_frame app' = result_frame app
  /\ status app' = status app.

(** The two exceptions of [round]. *)
Definition NaNToInteger : exn :=
  ValueError (py "cannot convert float NaN to integer").
Definition InfinityToInteger : exn :=
  OverflowError (py "cannot convert float infinity to integer").

(** A handler reports the error [e] and changes nothing else. *)
Definition reports (e : exn) (app app' : App) : Prop :=
  dialogs app' = dialogs app ++ [showerror (py "Error") (message e)]
  /\ status app' = py "Error: " ++ message e
  /\ current_result app' = current_result app.

(** A line of separators only. *)
Definition separators (ln : str) : Prop :=
  forallb Spec.separator ln = true.


(** What an operation does to the application, once the texts and the
    selector are given: it reports an error, before or after it has
    cleared the result frame, or it shows an array or a float. *)
Inductive effect : Type :=
| Report (e : exn)
| ReportCleared (e : exn)
| ShowMatrix (m : ndarray) (items : list (list str))
| ShowScalar (x : float) (label text : str).

Definition apply_effect (f : effect) (app : App) : App :=
  match f with
  | Report e => run (_handle_error e) app
  | ReportCleared e => run (_handle_error e) (set_result_frame [] app)
  | ShowMatrix m items => Spec.shown_matrix m items app
  | ShowScalar x label text => Spec.shown_scalar x label text app
  end.

(** Two texts of 1e308, whose sum is not finite. *)
Definition ex_overflow : App := set_texts (py "1e308") (py "1e308") (init []).

(** 1e308 and -1e308, whose difference is not finite. *)
Definition ex_opposite : App :=
  set_texts (py "1e308") (py "-1e308") (init []).


(** A literal beyond the largest float, which [float] reads as an
    infinity, and 1. *)
Definition ex_infinite : App := set_texts (py "1e999 1") [] (init []).

(** A text with blank lines and spaces around a 2x2 matrix. *)
Definition ex_padded : str :=
  [LF] ++ py "  1, 2 " ++ [LF] ++ [LF] ++ py "3 ,4" ++ [LF] ++ py "  ".

End Further.

(* ===================================================================== *)
(** ** Facts about the string methods *)
(* ===================================================================== *)

Section StringFacts.

Lemma spaces_nil : spaces [].
Proof. reflexivity. Qed.

Lemma spaces_cons c w : spaces (c :: w) <-> isspace c = true /\ spaces w.
Proof. unfold spaces; simpl. apply andb_true_iff. Qed.

Lemma spaces_app w1 w2 : spaces (w1 ++ w2) <-> spaces w1 /\ spaces w2.
Proof.
  unfold spaces. rewrite forallb_app. apply andb_true_iff.
Qed.

Lemma spaces_rev w : spaces (rev w) <-> spaces w.
Proof.
  induction w as [|c w IH]; simpl; [tauto|].
  rewrite spaces_app, IH, !spaces_cons. pose proof spaces_nil. tauto.
Qed.

Lemma lstrip_spaces w : spaces w -> lstrip w = [].
Proof.
  induction w as [|c w IH]; [done|].
  intros [Hc Hw]%spaces_cons. simpl. by rewrite Hc, IH.
Qed.

Lemma lstrip_nil s : lstrip s = [] -> spaces s.
Proof.
  induction s as [|c s IH]; [done|]. simpl.
  destruct (isspace c) eqn:Hc; [|done].
  intros H. apply spaces_cons. auto.
Qed.

Lemma lstrip_app_spaces w s : spaces w -> lstrip (w ++ s) = lstrip s.
Proof.
  induction w as [|c w IH]; [done|].
  intros [Hc Hw]%spaces_cons. simpl. rewrite Hc. auto.
Qed.

Lemma lstrip_app_keep s t : lstrip s <> [] -> lstrip (s ++ t) = lstrip s ++ t.
Proof.
  induction s as [|c s IH]; [done|]. simpl.
  destruct (isspace c); auto.
Qed.

Lemma lstrip_split s : exists w, spaces w /\ s = w ++ lstrip s.
Proof.
  induction s as [|c s (w & Hw & Hs)]; [by exists []|]. simpl.
  destruct (isspace c) eqn:Hc.
  - exists (c :: w). split; [by apply spaces_cons|]. simpl. congruence.
  - by exists [].
Qed.

Lemma lstrip_head c s t : lstrip s = c :: t -> isspace c = false.
Proof.
  induction s as [|d s IH]; [done|]. simpl.
  destruct (isspace d) eqn:Hd; [done|]. congruence.
Qed.

Lemma rstrip_split s : exists w, spaces w /\ s = rstrip s ++ w.
Proof.
  destruct (lstrip_split (rev s)) as (w & Hw & Hs).
  exists (rev w). split; [by apply spaces_rev|].
  unfold rstrip. rewrite <- rev_app_distr, <- Hs. by rewrite rev_involutive.
Qed.

Lemma rstrip_app_spaces s w : spaces w -> rstrip (s ++ w) = rstrip s.
Proof.
  intros Hw. unfold rstrip. rewrite rev_app_distr.
  rewrite lstrip_app_spaces; [done|]. by apply spaces_rev.
Qed.

Lemma rstrip_nil s : rstrip s = [] -> spaces s.
Proof.
  unfold rstrip. intros H. apply spaces_rev, lstrip_nil.
  apply (f_equal (@rev ascii)) in H. by rewrite rev_involutive in H.
Qed.

Lemma strip_split s :
  exists w1 w2, spaces w1 /\ spaces w2 /\ s = w1 ++ strip s ++ w2.
Proof.
  destruct (lstrip_split s) as (w1 & H1 & Hs).
  destruct (rstrip_split (lstrip s)) as (w2 & H2 & Ht).
  exists w1, w2. unfold strip. split; [done|]. split; [done|]. congruence.
Qed.

Lemma strip_app_l w s : spaces w -> strip (w ++ s) = strip s.
Proof. intros Hw. unfold strip. by rewrite lstrip_app_spaces. Qed.

Lemma strip_app_r s w : spaces w -> strip (s ++ w) = strip s.
Proof.
  intros Hw. unfold strip.
  destruct (lstrip s) as [|c t] eqn:E.
  - apply lstrip_nil in E.
    rewrite lstrip_spaces; [done|]. by apply spaces_app.
  - rewrite lstrip_app_keep by congruence. rewrite E.
    by apply rstrip_app_spaces.
Qed.

Lemma strip_spaces w : spaces w -> strip w = [].
Proof. intros Hw. unfold strip. by rewrite lstrip_spaces. Qed.

Lemma strip_nil s : strip s = [] -> spaces s.
Proof.
  unfold strip. intros H%rstrip_nil.
  destruct (lstrip s) as [|c t] eqn:E; [by apply lstrip_nil|].
  apply spaces_cons in H as [Hc _].
  by rewrite (lstrip_head _ _ _ E) in Hc.
Qed.

(** A line is kept by the parser exactly when it is not blank. *)
Lemma nonempty_strip s : nonempty (strip s) = negb (Spec.blank s).
Proof.
  unfold Spec.blank. destruct (forallb isspace s) eqn:E.
  - by rewrite strip_spaces.
  - destruct (strip s) eqn:Es; [|done].
    apply strip_nil in Es. unfold spaces in Es. congruence.
Qed.

End StringFacts.

Section LineFacts.

Lemma kept_lines_cons ln ls :
  kept_lines (ln :: ls) =
  (if Spec.blank ln then [] else [strip ln]) ++ kept_lines ls.
Proof.
  unfold kept_lines. simpl. rewrite nonempty_strip.
  by destruct (Spec.blank ln).
Qed.

Lemma kept_lines_blank ln ls : spaces ln -> kept_lines (ln :: ls) = kept_lines ls.
Proof.
  intros H. rewrite kept_lines_cons. unfold Spec.blank. by rewrite H.
Qed.

Lemma kept_lines_strip ln ln' ls :
  strip ln = strip ln' -> kept_lines (ln :: ls) = kept_lines (ln' :: ls).
Proof.
  intros H. unfold kept_lines. simpl. rewrite H.
  destruct (nonempty (strip ln')); simpl; by rewrite ?H.
Qed.

Lemma kept_lines_end cur :
  kept_lines (match cur with [] => [] | _ => [rev cur] end) = kept_lines [rev cur].
Proof. by destruct cur. Qed.

(** Whitespace at the start of the line being read changes no kept
    line. *)
Lemma splitlines_from_lead s : forall cr cur ws,
  spaces ws ->
  kept_lines (splitlines_from cr (cur ++ ws) s) =
  kept_lines (splitlines_from cr cur s).
Proof.
  assert (Hstrip : forall cur ws, spaces ws ->
            strip (rev (cur ++ ws)) = strip (rev cur)).
  { intros cur ws Hws. rewrite rev_app_distr.
    apply strip_app_l. by apply spaces_rev. }
  induction s as [|c s IH]; intros cr cur ws Hws; simpl.
  - rewrite !kept_lines_end. apply kept_lines_strip. auto.
  - destruct (cr && Ascii.eqb c LF); [auto|].
    destruct (islinebreak c).
    + apply kept_lines_strip. auto.
    + apply (IH false (c :: cur) ws Hws).
Qed.

(** Whether a CR went before changes no kept line. *)
Lemma splitlines_from_cr s cur :
  spaces cur ->
  kept_lines (splitlines_from true cur s) =
  kept_lines (splitlines_from false cur s).
Proof.
  intros Hcur. destruct s as [|c s]; [done|]. simpl.
  destruct (Ascii.eqb c LF) eqn:Hc; [|done].
  apply Ascii.eqb_eq in Hc. subst c. simpl.
  rewrite kept_lines_blank by by apply spaces_rev.
  apply (splitlines_from_lead s false [] cur Hcur).
Qed.

(** Whitespace before the text changes no kept line. *)
Lemma splitlines_from_lstrip w : forall cr cur s,
  spaces w -> spaces cur ->
  kept_lines (splitlines_from cr cur (w ++ s)) =
  kept_lines (splitlines_from false [] s).
Proof.
  induction w as [|c w IH]; intros cr cur s Hw Hcur; simpl.
  - transitivity (kept_lines (splitlines_from false cur s)).
    + destruct cr; [by apply splitlines_from_cr|done].
    + apply (splitlines_from_lead s false [] cur Hcur).
  - apply spaces_cons in Hw as [Hc Hw].
    destruct (cr && Ascii.eqb c LF); [auto|].
    destruct (islinebreak c).
    + rewrite kept_lines_blank by by apply spaces_rev.
      apply IH; [done|apply spaces_nil].
    + apply IH; [done|]. by apply spaces_cons.
Qed.

(** A text of whitespace only has no kept line beyond the one being
    read. *)
Lemma splitlines_from_spaces w : forall cr cur,
  spaces w ->
  kept_lines (splitlines_from cr cur w) = kept_lines [rev cur].
Proof.
  induction w as [|c w IH]; intros cr cur Hw; simpl.
  - apply kept_lines_end.
  - apply spaces_cons in Hw as [Hc Hw].
    destruct (cr && Ascii.eqb c LF); [auto|].
    destruct (islinebreak c).
    + rewrite (kept_lines_cons (rev cur)), IH by done.
      rewrite (kept_lines_cons (rev cur)). f_equal.
    + rewrite IH by done. apply kept_lines_strip. simpl.
      apply strip_app_r. apply spaces_cons. by split; [|apply spaces_nil].
Qed.

(** Whitespace after the text changes no kept line. *)
Lemma splitlines_from_rstrip s : forall cr cur w,
  spaces w ->
  kept_lines (splitlines_from cr cur (s ++ w)) =
  kept_lines (splitlines_from cr cur s).
Proof.
  induction s as [|c s IH]; intros cr cur w Hw; simpl.
  - rewrite splitlines_from_spaces by done. by rewrite kept_lines_end.
  - destruct (cr && Ascii.eqb c LF); [auto|].
    destruct (islinebreak c).
    + rewrite !(kept_lines_cons (rev cur)). f_equal. auto.
    + auto.
Qed.

(** The lines the parser keeps are the lines of the text that are not
    blank, each one trimmed: trimming the text first loses none. *)
Lemma stripped_lines_spec text :
  stripped_lines text = map strip (Spec.rows_text text).
Proof.
  unfold stripped_lines, Spec.rows_text.
  destruct (strip_split text) as (w1 & w2 & H1 & H2 & Ht).
  transitivity (kept_lines (splitlines text)).
  - rewrite Ht at 2. unfold splitlines.
    rewrite splitlines_from_lstrip by (done || apply spaces_nil).
    by rewrite splitlines_from_rstrip.
  - unfold kept_lines. f_equal. apply filter_ext.
    intros ln. apply nonempty_strip.
Qed.

End LineFacts.

Section TokenFacts.

Lemma separator_space c : isspace c = true -> Spec.separator c = true.
Proof. unfold Spec.separator. by intros ->. Qed.

(** Splitting at whitespace once the commas are spaces is splitting at
    separators. *)
Lemma split_from_replace s : forall cur,
  split_from cur (replace "," " " s) = Spec.tokens_from cur s.
Proof.
  induction s as [|c s IH]; intros cur; [done|]. simpl.
  unfold Spec.separator.
  destruct (Ascii.eqb c ",") eqn:Hc.
  - rewrite orb_true_r. change (isspace " ") with true. simpl.
    rewrite IH. by destruct cur.
  - rewrite orb_false_r, !IH. by destruct (isspace c), cur.
Qed.

Lemma tokens_from_nonempty s : forall cur,
  Forall (fun p => nonempty p = true) (Spec.tokens_from cur s).
Proof.
  assert (Hrev : forall c (cur : str), nonempty (rev (c :: cur)) = true).
  { intros c cur. simpl. by destruct (rev cur). }
  induction s as [|c s IH]; intros cur; simpl.
  - destruct cur; [constructor|]. constructor; [apply Hrev|constructor].
  - destruct (Spec.separator c); [|apply IH].
    destruct cur; [apply IH|]. constructor; [apply Hrev|apply IH].
Qed.

Lemma filter_all {A} (p : A -> bool) (l : list A) :
  Forall (fun x => p x = true) l -> List.filter p l = l.
Proof.
  induction 1 as [|x l Hx _ IH]; simpl; [done|]. by rewrite Hx, IH.
Qed.

Lemma tokens_from_lead w s :
  spaces w -> Spec.tokens_from [] (w ++ s) = Spec.tokens_from [] s.
Proof.
  induction w as [|c w IH]; [done|].
  intros [Hc Hw]%spaces_cons. simpl.
  rewrite (separator_space _ Hc). auto.
Qed.

Lemma tokens_from_spaces w : forall cur,
  spaces w ->
  Spec.tokens_from cur w = match cur with [] => [] | _ => [rev cur] end.
Proof.
  induction w as [|c w IH]; intros cur Hw; [done|].
  apply spaces_cons in Hw as [Hc Hw]. simpl.
  rewrite (separator_space _ Hc), (IH [] Hw). by destruct cur.
Qed.

Lemma tokens_from_trail s : forall cur w,
  spaces w -> Spec.tokens_from cur (s ++ w) = Spec.tokens_from cur s.
Proof.
  induction s as [|c s IH]; intros cur w Hw; simpl.
  - by apply tokens_from_spaces.
  - by rewrite !IH.
Qed.

Lemma tokens_strip ln : Spec.tokens (strip ln) = Spec.tokens ln.
Proof.
  destruct (strip_split ln) as (w1 & w2 & H1 & H2 & Hln).
  rewrite Hln at 2. unfold Spec.tokens.
  by rewrite tokens_from_lead, tokens_from_trail.
Qed.

(** The parts the parser reads on a trimmed line are the tokens of the
    line. *)
Lemma parts_of_spec ln : parts_of (strip ln) = Spec.tokens ln.
Proof.
  unfold parts_of, split. rewrite split_from_replace.
  rewrite filter_all by apply tokens_from_nonempty.
  apply tokens_strip.
Qed.

End TokenFacts.

Section ParserFacts.

Import Numpy.

(** The loop reports the first line with a token that is not a number,
    and otherwise appends the rows of all lines. *)
Lemma parse_lines_spec lines : forall acc,
  parse_lines (map strip lines) acc =
  match List.find Spec.non_numeric lines with
  | Some ln => raise (NonNumericToken (strip ln))
  | None => ret (acc ++ omap Spec.row_of lines)
  end.
Proof.
  induction lines as [|ln lines IH]; intros acc; simpl.
  - by rewrite app_nil_r.
  - rewrite parts_of_spec. unfold Spec.non_numeric at 1.
    fold (Spec.row_of ln).
    destruct (Spec.row_of ln) as [row|]; [|done].
    rewrite IH. destruct (List.find _ lines); [done|].
    by rewrite <- app_assoc.
Qed.

(** The set of the lengths has one element exactly when all lengths are
    that of the first row. *)
Lemma lengths_singleton (n : nat) (l : list nat) :
  size (list_to_set (n :: l) : gset nat) = 1%nat <-> Forall (fun k => k = n) l.
Proof.
  split.
  - intros Hsize. apply size_1_elem_of in Hsize as [x Hx].
    assert (Hin : forall k, k ∈ n :: l -> k = x).
    { intros k Hk. apply (elem_of_singleton (C := gset nat)).
      rewrite <- Hx. by apply elem_of_list_to_set. }
    apply Forall_forall. intros k Hk.
    rewrite (Hin n) by left. apply Hin. by right.
  - intros H.
    assert (Heq : (list_to_set (n :: l) : gset nat) = {[n]}).
    { apply set_eq. intros k. rewrite elem_of_list_to_set, elem_of_singleton.
      rewrite elem_of_cons. split; [|auto].
      intros [->|Hk]; [done|]. by eapply Forall_forall in H. }
    rewrite Heq. apply size_singleton.
Qed.

Lemma lengths_same (rs : list (list float)) :
  rs <> [] ->
  Nat.eqb (size (list_to_set (map (@length float) rs) : gset nat)) 1
  = Spec.same_length rs.
Proof.
  destruct rs as [|r rs]; [done|]. intros _. simpl.
  apply eq_true_iff_eq. rewrite Nat.eqb_eq.
  rewrite (lengths_singleton (length r) (map (@length float) rs)).
  rewrite forallb_forall, Forall_forall. split.
  - intros H r' Hr'. apply Nat.eqb_eq, H.
    apply list_elem_of_In, in_map_iff. eauto.
  - intros H k Hk. apply list_elem_of_In, in_map_iff in Hk as (r' & <- & Hr').
    by apply Nat.eqb_eq, H.
Qed.

Lemma omap_row_of_length lines :
  List.find Spec.non_numeric lines = None ->
  length (omap Spec.row_of lines) = length lines.
Proof.
  induction lines as [|ln lines IH]; [done|]. simpl.
  unfold Spec.non_numeric at 1.
  destruct (Spec.row_of ln); [|done]. simpl. auto.
Qed.

Lemma parse_matrix_spec text : parse_matrix text = Spec.grid_of text.
Proof.
  unfold parse_matrix, Spec.grid_of. rewrite stripped_lines_spec.
  destruct (Spec.rows_text text) as [|ln lines] eqn:E; [done|].
  rewrite parse_lines_spec.
  destruct (List.find _ (ln :: lines)) as [bad|] eqn:Hfind; [done|].
  cbn [mbind result_bind bind ret app].
  rewrite lengths_same.
  - by destruct (Spec.same_length _).
  - intros Hnil. apply omap_row_of_length in Hfind.
    rewrite Hnil in Hfind. done.
Qed.

End ParserFacts.

Section ArrayFacts.

Import Numpy.

Lemma item_entry (a : ndarray) i j :
  wf a -> (i < nrows a)%nat -> (j < ncols a)%nat ->
  item a i j = Some (Spec.entry a i j).
Proof.
  intros [Hlen Hrows] Hi Hj. unfold item, Spec.entry.
  destruct (lookup_lt_is_Some_2 (rows a) i) as [r Hr]; [lia|].
  rewrite Hr. rewrite (nth_lookup_Some _ _ [] _ Hr).
  assert (Hlr : length r = ncols a).
  { eapply Forall_forall in Hrows; [exact Hrows|].
    eapply list_elem_of_lookup_2; eauto. }
  destruct (lookup_lt_is_Some_2 r j) as [x Hx]; [lia|].
  rewrite Hx. by rewrite (nth_lookup_Some _ _ fzero _ Hx).
Qed.

Lemma wf_array rs :
  rs <> [] -> Spec.same_length rs = true ->
  wf (array rs) /\ (1 <= nrows (array rs))%nat.
Proof.
  destruct rs as [|r rs]; [done|]. intros _ H. simpl in H.
  rewrite forallb_forall in H.
  unfold wf, nrows, ncols, array. simpl.
  split; [split|]; [done| |lia].
  apply Forall_forall. intros r' [->|Hr']%elem_of_cons; [done|].
  apply Nat.eqb_eq, H. by apply list_elem_of_In.
Qed.

Lemma array_rows (g : ndarray) :
  wf g -> (1 <= nrows g)%nat -> array (rows g) = g.
Proof.
  destruct g as [[n m] rs]. unfold wf, nrows, ncols, array. simpl.
  intros [Hlen Hrows] Hn. f_equal.
  destruct rs as [|r rs]; simpl in *; [lia|].
  apply Forall_cons in Hrows as [Hr _]. congruence.
Qed.

Lemma map_nth_seq {A} (d : A) (l : list A) :
  map (fun j => nth j l d) (seq 0 (length l)) = l.
Proof.
  apply list_eq. intros i. rewrite list_lookup_fmap.
  destruct (decide (i < length l)%nat) as [Hi|Hi].
  - rewrite lookup_seq_lt by done. simpl.
    destruct (lookup_lt_is_Some_2 l i Hi) as [x Hx].
    by rewrite Hx, (nth_lookup_Some _ _ d _ Hx).
  - rewrite lookup_seq_ge by lia. simpl.
    symmetry. apply lookup_ge_None. lia.
Qed.

Lemma column_length (a : ndarray) j : length (column a j) = length (rows a).
Proof. unfold column. by rewrite length_map. Qed.

Lemma column_nth (a : ndarray) j k :
  nth k (column a j) fzero = Spec.entry a k j.
Proof.
  unfold column, Spec.entry.
  destruct (decide (k < length (rows a))%nat) as [Hk|Hk].
  - rewrite (nth_indep _ fzero (nth j [] fzero)) by by rewrite length_map.
    by rewrite (map_nth (fun r => nth j r fzero)).
  - rewrite nth_overflow by (rewrite length_map; lia).
    rewrite (nth_overflow (rows a)) by lia. by destruct j.
Qed.

(** *** The transpose *)

Lemma wf_T (a : ndarray) : wf a -> wf (T a).
Proof.
  intros [Hlen _]. split; simpl.
  - by rewrite length_map, length_seq.
  - apply Forall_forall. intros c (j & -> & _)%list_elem_of_fmap.
    by rewrite column_length.
Qed.

Lemma entry_T (a : ndarray) i j :
  (j < ncols a)%nat -> Spec.entry (T a) j i = Spec.entry a i j.
Proof.
  intros Hj. unfold Spec.entry at 1. simpl.
  rewrite (nth_indep _ [] (column a 0)) by by rewrite length_map, length_seq.
  rewrite (map_nth (column a)), seq_nth by done. simpl.
  apply column_nth.
Qed.

Lemma T_involutive (a : ndarray) : wf a -> T (T a) = a.
Proof.
  intros [Hlen Hrows]. destruct a as [[n m] rs].
  unfold T, nrows, ncols in *; simpl in *. f_equal.
  subst n.
  transitivity (map (fun i => nth i rs []) (seq 0 (length rs)));
    [|apply map_nth_seq].
  apply map_ext_in. intros i Hi%in_seq.
  set (a := {| shape := (length rs, m); rows := rs |}).
  assert (Hri : length (nth i rs []) = m).
  { eapply Forall_forall in Hrows; [exact Hrows|].
    apply list_elem_of_In, nth_In. lia. }
  transitivity (map (fun j => nth j (nth i rs []) fzero) (seq 0 m));
    [|rewrite <- Hri; apply map_nth_seq].
  unfold column at 1. simpl. rewrite map_map.
  apply map_ext_in. intros j Hj%in_seq.
  apply (column_nth a j i).
Qed.

(** *** Sums and differences *)

Lemma zip_with_nth {A} (f : A -> A -> A) (d : A) (l k : list A) i :
  (i < length l)%nat -> (i < length k)%nat ->
  nth i (zip_with f l k) d = f (nth i l d) (nth i k d).
Proof.
  revert k i. induction l as [|x l IH]; intros [|y k] [|i]; simpl; try lia.
  - done.
  - intros. apply IH; lia.
Qed.

Lemma entry_zip (f : float -> float -> float) (a b : ndarray) i j :
  wf a -> wf b -> shape a = shape b ->
  (i < nrows a)%nat -> (j < ncols a)%nat ->
  nth j (nth i (zip_with (zip_with f) (rows a) (rows b)) []) fzero
  = f (Spec.entry a i j) (Spec.entry b i j).
Proof.
  intros [Hla Hra] [Hlb Hrb] Hs Hi Hj. unfold Spec.entry.
  assert (Hn : nrows b = nrows a) by (unfold nrows; congruence).
  assert (Hm : ncols b = ncols a) by (unfold ncols; congruence).
  assert (Hlen : forall c : ndarray, length (rows c) = nrows a ->
            Forall (fun r => length r = ncols a) (rows c) ->
            length (nth i (rows c) []) = ncols a).
  { intros c Hl Hr. eapply Forall_forall in Hr; [exact Hr|].
    apply list_elem_of_In, nth_In. lia. }
  rewrite (nth_indep _ [] (zip_with f [] [])).
  2:{ rewrite length_zip_with. lia. }
  rewrite (zip_with_nth (zip_with f) []) by lia.
  rewrite Hm in Hrb.
  apply zip_with_nth; rewrite Hlen; auto; lia.
Qed.

Lemma wf_zip (f : float -> float -> float) (a b : ndarray) :
  wf a -> wf b -> shape a = shape b ->
  wf {| shape := shape a; rows := zip_with (zip_with f) (rows a) (rows b) |}.
Proof.
  intros [Hla Hra] [Hlb Hrb] Hs.
  assert (Hn : nrows b = nrows a) by (unfold nrows; congruence).
  assert (Hm : ncols b = ncols a) by (unfold ncols; congruence).
  split; unfold nrows, ncols; simpl.
  - rewrite length_zip_with. unfold nrows in *. lia.
  - apply Forall_forall. intros r Hr.
    apply elem_of_lookup_zip_with in Hr as (i & ra & rb & -> & Ha & Hb).
    rewrite length_zip_with.
    eapply Forall_forall in Hra; [|eapply list_elem_of_lookup_2; eauto].
    eapply Forall_forall in Hrb; [|eapply list_elem_of_lookup_2; eauto].
    unfold ncols in *. lia.
Qed.

(** *** The product *)

Lemma vdot_fsum (u v : list float) :
  length u = length v ->
  vdot u v = Spec.fsum (length u) (fun k => fmul (nth k u fzero) (nth k v fzero)).
Proof.
  unfold vdot, Spec.fsum. generalize fzero at 1 4 as acc.
  assert (H : forall (u v : list float) off (g : nat -> float) acc,
    length u = length v ->
    (forall k, (k < length u)%nat ->
               g (off + k)%nat = fmul (nth k u fzero) (nth k v fzero)) ->
    fold_left (fun acc xy => fadd acc (fmul xy.1 xy.2)) (combine u v) acc
    = fold_left (fun acc k => fadd acc (g k)) (seq off (length u)) acc).
  { clear u v. induction u as [|x u IH]; intros [|y v] off g acc Hlen Hg;
      try done.
    pose proof (Hg 0%nat ltac:(simpl; lia)) as H0.
    rewrite Nat.add_0_r in H0. simpl in H0. simpl. rewrite H0.
    apply IH; [simpl in Hlen; lia|].
    intros k Hk. pose proof (Hg (S k) ltac:(simpl; lia)) as Hk'.
    simpl in Hk'. rewrite <- Hk'. f_equal. lia. }
  intros acc Hlen. by apply H.
Qed.

Lemma fsum_ext n (f g : nat -> float) :
  (forall k, f k = g k) -> Spec.fsum n f = Spec.fsum n g.
Proof.
  intros H. unfold Spec.fsum. generalize fzero (seq 0 n).
  intros acc l. revert acc.
  induction l as [|k l IH]; intros acc; simpl; [done|]. by rewrite H, IH.
Qed.


Lemma entry_dot_in_order (a b : ndarray) i j :
  wf a -> wf b -> ncols a = nrows b ->
  (i < nrows a)%nat -> (j < ncols b)%nat ->
  Spec.entry (dot_in_order a b) i j
  = Spec.fsum (ncols a)
      (fun k => fmul (Spec.entry a i k) (Spec.entry b k j)).
Proof.
  intros [Hla Hra] [Hlb Hrb] Hinner Hi Hj. unfold Spec.entry at 1. simpl.
  set (row r := map (fun j => vdot r (column b j)) (seq 0 (ncols b))).
  rewrite (nth_indep _ [] (row [])) by (rewrite length_map; lia).
  rewrite (map_nth row). unfold row.
  set (u := nth i (rows a) []).
  assert (Hu : length u = ncols a).
  { eapply Forall_forall in Hra; [exact Hra|].
    apply list_elem_of_In, nth_In. lia. }
  rewrite (nth_indep _ fzero (vdot u (column b 0)))
    by (rewrite length_map, length_seq; lia).
  rewrite (map_nth (fun j => vdot u (column b j))), seq_nth by done. simpl.
  rewrite vdot_fsum by (rewrite column_length; lia).
  rewrite Hu. apply fsum_ext. intros k. by rewrite column_nth.
Qed.

End ArrayFacts.

Section HandlerFacts.

Import Numpy Tk MatrixToolApp.

(** Case analysis on whether each text area is blank and on what the
    parser returns for it. *)
Ltac case_texts app :=
  destruct (nonempty (strip (a_txt app ++ [LF])));
  destruct (nonempty (strip (b_txt app ++ [LF])));
  repeat match goal with
         | |- context [parse_matrix ?t] => destruct (parse_matrix t)
         end.

Lemma run_handle_error e app :
  run (_handle_error e) app =
  set_status (py "Error: " ++ message e)
             (show_dialog (showerror (py "Error") (message e)) app).
Proof. reflexivity. Qed.

(** Reading the two text areas changes nothing. *)
Lemma get_matrices_state app : snd (_get_matrices app) = app.
Proof.
  unfold _get_matrices, text_get.
  cbv [mbind action_bind abind mret action_ret areturn read lift].
  case_texts app; reflexivity.
Qed.

Lemma operands_eq app :
  Spec.operands app =
  (a ← Spec.operand_of (a_txt app ++ [LF]);
   b ← Spec.operand_of (b_txt app ++ [LF]);
   mret (a, b)).
Proof.
  unfold Spec.operands, Spec.operand_of, _get_matrices, text_get.
  cbv [mbind action_bind abind mret action_ret areturn read lift
       result_bind result_ret bind ret].
  case_texts app; reflexivity.
Qed.

Lemma get_matrices_eq app : _get_matrices app = (Spec.operands app, app).
Proof.
  unfold Spec.operands. rewrite <- (get_matrices_state app) at 3.
  by destruct (_get_matrices app).
Qed.

(** A handler that first gets the operands: a parse error is reported,
    and otherwise the rest of the body runs on the operands. *)
Lemma run_with_operands
      (k : option ndarray * option ndarray -> action unit) app :
  run (try_except (_get_matrices ≫= k) _handle_error) app =
  match Spec.operands app with
  | inl e => run (_handle_error e) app
  | inr ab => run (try_except (k ab) _handle_error) app
  end.
Proof.
  unfold run, try_except. cbv [mbind action_bind abind].
  rewrite get_matrices_eq. by destruct (Spec.operands app).
Qed.

Lemma run_with_choice
      (k : str -> option ndarray * option ndarray -> action unit) app :
  run (try_except (choice ← read single_choice; _get_matrices ≫= k choice)
                  _handle_error) app =
  match Spec.operands app with
  | inl e => run (_handle_error e) app
  | inr ab =>
      run (try_except (k (single_choice app) ab) _handle_error) app
  end.
Proof.
  rewrite <- run_with_operands. reflexivity.
Qed.

(** *** The formatter and the display *)

Lemma round_finite x :
  is_finite x = true -> exists n, round x = inr n.
Proof. destruct x; simpl; try done; eauto. Qed.

Lemma fmt_finite x : is_finite x = true -> exists s, _fmt x = inr s.
Proof.
  intros [n Hn]%round_finite. unfold _fmt.
  cbv [mbind result_bind bind]. rewrite Hn.
  destruct (fltb _ _); eauto.
Qed.

Lemma mapM_result {A B} (f : A -> result B) (l : list A) :
  Forall (fun x => exists y, f x = inr y) l ->
  exists ys, mapM f l = inr ys /\ length ys = length l.
Proof.
  induction 1 as [|x l [y Hy] _ (ys & Hys & Hlen)]; [by exists []|].
  exists (y :: ys). simpl. rewrite Hy. simpl. rewrite Hys. simpl. auto.
Qed.

Lemma fmt_rows (m : ndarray) :
  Spec.all_finite m = true ->
  exists items, mapM (fun r => mapM _fmt r) (rows m) = inr items.
Proof.
  unfold Spec.all_finite. rewrite forallb_forall. intros H.
  destruct (mapM_result (fun r => mapM _fmt r) (rows m)) as (items & Hi & _);
    [|eauto].
  apply Forall_forall. intros r Hr%list_elem_of_In.
  specialize (H r Hr). rewrite forallb_forall in H.
  destruct (mapM_result _fmt r) as (ys & Hys & _); [|eauto].
  apply Forall_forall. intros x Hx%list_elem_of_In. apply fmt_finite. auto.
Qed.

Lemma run_show_matrix m items app :
  mapM (fun r => mapM _fmt r) (rows m) = inr items ->
  run (try_except (_show_matrix_result m) _handle_error) app
  = Spec.shown_matrix m items app.
Proof.
  intros H. unfold run, try_except, _show_matrix_result.
  cbv [mbind action_bind abind lift update]. simpl. rewrite H. reflexivity.
Qed.

Lemma run_show_scalar x label text app :
  _fmt x = inr text ->
  run (try_except (_show_scalar_result x label) _handle_error) app
  = Spec.shown_scalar x label text app.
Proof.
  intros H. unfold run, try_except, _show_scalar_result.
  cbv [mbind action_bind abind lift update]. simpl. rewrite H. reflexivity.
Qed.

End HandlerFacts.

Section ParserResults.

Import Numpy.

(** What the parser returns is rectangular and has a row. *)
Lemma parse_matrix_wf text m :
  parse_matrix text = inr m -> wf m /\ (1 <= nrows m)%nat.
Proof.
  rewrite parse_matrix_spec. unfold Spec.grid_of.
  destruct (Spec.rows_text text) as [|ln lines]; [done|].
  destruct (List.find _ _) eqn:Hfind; [done|].
  destruct (Spec.same_length _) eqn:Hsame; [|done].
  intros [= <-]. apply wf_array; [|done].
  intros Hnil. apply omap_row_of_length in Hfind.
  apply (f_equal (@length _)) in Hnil.
  change (length (omap Spec.row_of (ln :: lines)) = 0%nat) in Hnil.
  rewrite Hfind in Hnil. done.
Qed.

(** A line being read that holds a character other than whitespace is
    kept. *)
Lemma splitlines_from_kept s : forall cr cur,
  Spec.blank cur = false -> kept_lines (splitlines_from cr cur s) <> [].
Proof.
  assert (Hrev : forall cur, Spec.blank cur = false ->
                             Spec.blank (rev cur) = false).
  { intros cur H. apply not_true_is_false. intros H'.
    apply (proj1 (spaces_rev cur)) in H'.
    unfold spaces, Spec.blank in *. congruence. }
  induction s as [|c s IH]; intros cr cur Hcur; simpl.
  - destruct cur; [done|]. rewrite kept_lines_cons, Hrev; done.
  - destruct (cr && Ascii.eqb c LF); [by apply IH|].
    destruct (islinebreak c).
    + rewrite kept_lines_cons, Hrev; done.
    + apply IH. unfold Spec.blank in *. simpl.
      rewrite Hcur. apply andb_false_r.
Qed.

Lemma islinebreak_isspace c : islinebreak c = true -> isspace c = true.
Proof.
  destruct c as [[] [] [] [] [] [] [] []]; vm_compute; congruence.
Qed.

(** A text that is not blank has a line that is kept. *)
Lemma stripped_lines_nonempty text :
  nonempty (strip text) = true -> stripped_lines text <> [].
Proof.
  unfold stripped_lines, splitlines.
  destruct (strip text) as [|c t] eqn:E; [done|]. intros _.
  assert (Hc : isspace c = false).
  { unfold strip in E. destruct (lstrip text) as [|d u] eqn:El; [done|].
    pose proof (lstrip_head _ _ _ El) as Hd.
    destruct (rstrip_split (d :: u)) as (w & Hw & Hsplit).
    rewrite E in Hsplit. by injection Hsplit as -> _. }
  simpl. destruct (islinebreak c) eqn:Hl.
  - apply islinebreak_isspace in Hl. congruence.
  - apply splitlines_from_kept. unfold Spec.blank. simpl. by rewrite Hc.
Qed.

Lemma parse_lines_not_empty lines : forall acc,
  parse_lines lines acc <> inl EmptyInput.
Proof.
  induction lines as [|l ls IH]; intros acc; simpl; [done|].
  destruct (mapM _ _); [apply IH|]. discriminate.
Qed.

(** On a text that is not blank the parser never reports an empty
    input. *)
Lemma parse_matrix_not_empty text :
  nonempty (strip text) = true -> parse_matrix text <> inl EmptyInput.
Proof.
  intros H%stripped_lines_nonempty. unfold parse_matrix.
  destruct (stripped_lines text) as [|ln lines]; [done|].
  pose proof (parse_lines_not_empty (ln :: lines) []) as Hp.
  cbn -[parse_lines].
  destruct (parse_lines _ _) as [e|rs]; simpl.
  - congruence.
  - destruct (negb _); discriminate.
Qed.

End ParserResults.

(** C1. The parser of section 4.1 treats commas as whitespace: a line of
    commas is blank and ignored, so that the text [,] leaves no row and
    fails with [EmptyInput], and the text of the lines [,] and [1 2] is
    the grid of the one row 1 2.  [parse_matrix] tests for blank lines
    with [strip], which removes whitespace only: it keeps the line of
    commas as a row without tokens, returns a grid of one row and no
    column for the first text and fails with [RaggedRows] on the
    second. *)
Theorem parse_matrix_comma_lines :
  Spec.parse (py ",") = inl EmptyInput
  /\ parse_matrix (py ",")
     = inr {| Numpy.shape := (1%nat, 0%nat); Numpy.rows := [[]] |}
  /\ Spec.parse (py "," ++ [LF] ++ py "1 2") = inr (Examples.ints [[1; 2]])
  /\ parse_matrix (py "," ++ [LF] ++ py "1 2") = inl RaggedRows.
Proof. repeat split; vm_compute; reflexivity. Qed.

(** C2. The grid returned for a line of commas has one row and no column:
    the parser keeps the line, which is not blank, and finds no token on
    it. *)
Theorem parse_matrix_commas_no_column :
  parse_matrix (py ",")
  = inr {| Numpy.shape := (1%nat, 0%nat); Numpy.rows := [[]] |}.
Proof. vm_compute. reflexivity. Qed.

Section RoundTrip.

Import Numpy.

Lemma same_float_eq x y : same_float x y = true -> x = y.
Proof.
  destruct x as [s|s| |s m e], y as [t|t| |t n f]; simpl; try done.
  - intros ->%Bool.eqb_prop. done.
  - intros ->%Bool.eqb_prop. done.
  - intros [[->%Bool.eqb_prop ->%Pos.eqb_eq]%andb_true_iff ->%Z.eqb_eq]%andb_true_iff.
    done.
Qed.

Lemma not_separator_not_linebreak c :
  Spec.separator c = false -> islinebreak c = false.
Proof.
  unfold Spec.separator. intros [H _]%orb_false_iff.
  destruct (islinebreak c) eqn:E; [|done].
  apply islinebreak_isspace in E. congruence.
Qed.

Lemma last_run (t : str) :
  nonempty t = true ->
  match rev t ++ [] with [] => [] | _ => [rev (rev t ++ [])] end = [t].
Proof.
  intros Ht. rewrite app_nil_r, rev_involutive.
  destruct t as [|c t]; [done|]. simpl. by destruct (rev t).
Qed.

(** Reading a run of characters that end no line only extends the line
    being read. *)
Lemma splitlines_from_run l : forall cur rest,
  forallb (fun c => negb (islinebreak c)) l = true ->
  splitlines_from false cur (l ++ rest)
  = splitlines_from false (rev l ++ cur) rest.
Proof.
  induction l as [|c l IH]; intros cur rest H; [done|].
  simpl in H. apply andb_true_iff in H as [Hc Hl].
  apply negb_true_iff in Hc. simpl. rewrite Hc, IH by done.
  by rewrite <- app_assoc.
Qed.

(** Lines that are not empty and hold no line boundary are what
    [splitlines] finds in their [join]. *)
Lemma splitlines_join lines :
  Forall (fun l => nonempty l = true /\
                   forallb (fun c => negb (islinebreak c)) l = true) lines ->
  splitlines (join [LF] lines) = lines.
Proof.
  unfold splitlines.
  induction 1 as [|l lines [Hne Hl] Hlines IH]; [done|].
  destruct lines as [|l' lines].
  - simpl. rewrite <- (app_nil_r l) at 1.
    rewrite splitlines_from_run by done. simpl. by apply last_run.
  - change (join [LF] (l :: l' :: lines))
      with (l ++ LF :: join [LF] (l' :: lines)).
    rewrite splitlines_from_run by done. rewrite app_nil_r.
    cbn [splitlines_from andb]. change (islinebreak LF) with true.
    cbv iota. rewrite rev_involutive. f_equal.
    change (Ascii.eqb LF CR) with false. apply IH.
Qed.

Lemma tokens_from_run t : forall cur rest,
  Spec.clean t ->
  Spec.tokens_from cur (t ++ rest) = Spec.tokens_from (rev t ++ cur) rest.
Proof.
  unfold Spec.clean.
  induction t as [|c t IH]; intros cur rest H; [done|].
  simpl in H. apply andb_true_iff in H as [Hc Ht].
  apply negb_true_iff in Hc. simpl. rewrite Hc, IH by done.
  by rewrite <- app_assoc.
Qed.

(** Tokens joined by one space are the tokens of their [join]. *)
Lemma tokens_join toks :
  Forall (fun t => Spec.is_token t = true) toks ->
  Spec.tokens (join (py " ") toks) = toks.
Proof.
  unfold Spec.tokens.
  pose proof last_run as Hrev.
  induction 1 as [|t toks Ht Htoks IH]; [done|].
  unfold Spec.is_token in Ht. apply andb_true_iff in Ht as [Hne Hcl].
  destruct toks as [|t' toks].
  - simpl. rewrite <- (app_nil_r t) at 1.
    rewrite tokens_from_run by done. simpl. by apply Hrev.
  - change (join (py " ") (t :: t' :: toks))
      with (t ++ " "%char :: join (py " ") (t' :: toks)).
    rewrite tokens_from_run by done.
    cbn [Spec.tokens_from]. change (Spec.separator " ") with true.
    cbv iota. rewrite IH.
    pose proof (Hrev t Hne) as Hr.
    destruct (rev t ++ []); [done|]. injection Hr as Hr. by rewrite <- Hr.
Qed.

Lemma line_of_row r :
  forallb Spec.reads_back r = true -> Spec.row_of (Spec.line_of r) = Some r.
Proof.
  rewrite forallb_forall. intros H. unfold Spec.row_of, Spec.line_of.
  rewrite tokens_join.
  - apply mapM_fmap_Forall_Some, Forall_forall.
    intros x Hx%list_elem_of_In. specialize (H x Hx).
    unfold Spec.reads_back in H. apply andb_true_iff in H as [_ H].
    destruct (float_of_str (str_of_float x)); [|done].
    by apply same_float_eq in H as ->.
  - apply Forall_forall. intros t (x & -> & Hx)%list_elem_of_fmap.
    apply list_elem_of_In in Hx. specialize (H x Hx).
    unfold Spec.reads_back in H. by apply andb_true_iff in H as [H _].
Qed.

(** The characters of a line of tokens: those of the tokens, and
    spaces. *)
Lemma join_chars (P : ascii -> bool) toks :
  P " "%char = true ->
  Forall (fun t => forallb P t = true) toks ->
  forallb P (join (py " ") toks) = true.
Proof.
  intros Hsp. induction 1 as [|t toks Ht _ IH]; [done|].
  destruct toks as [|t' toks]; [done|].
  change (join (py " ") (t :: t' :: toks))
    with (t ++ " "%char :: join (py " ") (t' :: toks)).
  rewrite forallb_app. cbn [forallb]. by rewrite Ht, Hsp, IH.
Qed.

Lemma line_of_kept r :
  r <> [] -> forallb Spec.reads_back r = true ->
  nonempty (Spec.line_of r) = true
  /\ forallb (fun c => negb (islinebreak c)) (Spec.line_of r) = true
  /\ Spec.blank (Spec.line_of r) = false.
Proof.
  intros Hr H. rewrite forallb_forall in H.
  assert (Htok : Forall (fun t => Spec.is_token t = true)
                        (map str_of_float r)).
  { apply Forall_forall. intros t (x & -> & Hx)%list_elem_of_fmap.
    apply list_elem_of_In in Hx. specialize (H x Hx).
    unfold Spec.reads_back in H. by apply andb_true_iff in H as [H _]. }
  destruct r as [|x r]; [done|]. clear Hr.
  assert (Hhead : exists c s, str_of_float x = c :: s
                              /\ Spec.separator c = false).
  { apply Forall_cons in Htok as [Hx _]. unfold Spec.is_token in Hx.
    apply andb_true_iff in Hx as [Hne Hcl].
    destruct (str_of_float x) as [|c s]; [done|]. exists c, s.
    simpl in Hcl. apply andb_true_iff in Hcl as [Hc _].
    by apply negb_true_iff in Hc. }
  destruct Hhead as (c & s & Hx & Hc).
  assert (Hline : exists s', Spec.line_of (x :: r) = c :: s').
  { unfold Spec.line_of. simpl. rewrite Hx. destruct (map str_of_float r); eauto. }
  destruct Hline as [s' Hline].
  split; [by rewrite Hline|]. split.
  - apply join_chars; [done|].
    eapply Forall_impl; [exact Htok|]. intros t Ht. simpl in Ht.
    unfold Spec.is_token in Ht. apply andb_true_iff in Ht as [_ Ht].
    rewrite forallb_forall in *. intros d Hd. specialize (Ht d Hd).
    apply negb_true_iff in Ht. by rewrite not_separator_not_linebreak.
  - rewrite Hline. unfold Spec.blank. simpl.
    unfold Spec.separator in Hc. apply orb_false_iff in Hc as [-> _]. done.
Qed.

Lemma rows_text_lines (rs : list (list float)) :
  Forall (fun r => r <> [] /\ forallb Spec.reads_back r = true) rs ->
  Spec.rows_text (join [LF] (map Spec.line_of rs)) = map Spec.line_of rs.
Proof.
  intros H. unfold Spec.rows_text. rewrite splitlines_join.
  - apply filter_all, Forall_forall.
    intros l (r & -> & Hr)%list_elem_of_fmap.
    eapply Forall_forall in H as [Hne Hrb]; [|exact Hr].
    apply negb_true_iff. by apply line_of_kept.
  - apply Forall_forall. intros l (r & -> & Hr)%list_elem_of_fmap.
    eapply Forall_forall in H as [Hne Hrb]; [|exact Hr].
    destruct (line_of_kept r Hne Hrb) as (H1 & H2 & _). done.
Qed.

Lemma rows_of_lines (rs : list (list float)) :
  Forall (fun r => forallb Spec.reads_back r = true) rs ->
  List.find Spec.non_numeric (map Spec.line_of rs) = None
  /\ omap Spec.row_of (map Spec.line_of rs) = rs.
Proof.
  induction 1 as [|r rs Hr _ [IH1 IH2]]; [done|]. simpl.
  unfold Spec.non_numeric at 1. rewrite (line_of_row r Hr).
  rewrite IH1. split; [done|]. f_equal. exact IH2.
Qed.

Lemma same_length_wf (g : ndarray) : wf g -> Spec.same_length (rows g) = true.
Proof.
  intros [_ H]. destruct (rows g) as [|r rs]; [done|]. simpl.
  apply Forall_cons in H as [Hr Hrs].
  apply forallb_forall. intros r' Hr'%list_elem_of_In.
  eapply Forall_forall in Hrs; [|exact Hr']. apply Nat.eqb_eq. congruence.
Qed.


End RoundTrip.


Section OperationResults.

Import Numpy Tk MatrixToolApp.

(** The operands are rectangular. *)
Lemma operand_of_wf text m :
  Spec.operand_of text = inr (Some m) -> wf m /\ (1 <= nrows m)%nat.
Proof.
  unfold Spec.operand_of. destruct (nonempty (strip text)); [|done].
  destruct (parse_matrix text) as [e|m'] eqn:E; [done|].
  intros [= <-]. by eapply parse_matrix_wf.
Qed.

Lemma operands_inv app a b :
  Spec.operands app = inr (a, b) ->
  Spec.operand_of (a_txt app ++ [LF]) = inr a
  /\ Spec.operand_of (b_txt app ++ [LF]) = inr b.
Proof.
  rewrite operands_eq.
  destruct (Spec.operand_of (a_txt app ++ [LF])) as [e|a']; [done|].
  destruct (Spec.operand_of (b_txt app ++ [LF])) as [e|b']; [done|].
  by intros [= <- <-].
Qed.

Lemma operands_wf app a b :
  Spec.operands app = inr (a, b) ->
  (forall m, a = Some m -> wf m) /\ (forall m, b = Some m -> wf m).
Proof.
  intros [Ha Hb]%operands_inv.
  split; intros m ->; by eapply operand_of_wf.
Qed.

(** A displayed array of finite values is stored as the current result. *)
Lemma stored_matrix (h : action unit) app m :
  Spec.returns_matrix h app m -> Spec.all_finite m = true ->
  current_result (run h app) = Some (Matrix m).
Proof.
  intros -> [items Hitems]%fmt_rows.
  by rewrite (run_show_matrix m items app Hitems).
Qed.

Lemma stored_scalar (h : action unit) app x label :
  Spec.returns_scalar h app x label -> is_finite x = true ->
  current_result (run h app) = Some (Scalar x).
Proof.
  intros -> [text Htext]%fmt_finite.
  by rewrite (run_show_scalar x label text app Htext).
Qed.

Lemma run_mul `{linalg : Linalg} app a b :
  Spec.operands app = inr (a, b) ->
  run mul app =
  match a, b with
  | Some ma, Some mb =>
      if Nat.eqb (ncols ma) (nrows mb)
      then run (try_except (_show_matrix_result (dot ma mb)) _handle_error) app
      else run (_handle_error InnerDimMismatch) app
  | _, _ => run (_handle_error (MissingOperands (py "multiplication"))) app
  end.
Proof.
  intros H. unfold mul.
  rewrite (run_with_operands _ app), H.
  destruct a as [ma|], b as [mb|]; try reflexivity.
  by destruct (Nat.eqb (ncols ma) (nrows mb)).
Qed.

Lemma shape_eqb_eq s t : shape_eqb s t = true <-> s = t.
Proof.
  destruct s as [n m], t as [n' m']. unfold shape_eqb. simpl.
  rewrite andb_true_iff, !Nat.eqb_eq. split; [intros [-> ->]|intros [= -> ->]]; done.
Qed.

Lemma run_add app a b :
  Spec.operands app = inr (a, b) ->
  run add app =
  match a, b with
  | Some ma, Some mb =>
      if shape_eqb (shape ma) (shape mb)
      then run (try_except (_show_matrix_result (Numpy.add ma mb)) _handle_error) app
      else run (_handle_error (ShapeMismatch (py "addition"))) app
  | _, _ => run (_handle_error (MissingOperands (py "addition"))) app
  end.
Proof.
  intros H. unfold add.
  rewrite (run_with_operands _ app), H.
  destruct a as [ma|], b as [mb|]; try reflexivity.
  by destruct (shape_eqb (shape ma) (shape mb)).
Qed.

Lemma run_sub app a b :
  Spec.operands app = inr (a, b) ->
  run sub app =
  match a, b with
  | Some ma, Some mb =>
      if shape_eqb (shape ma) (shape mb)
      then run (try_except (_show_matrix_result (Numpy.sub ma mb)) _handle_error) app
      else run (_handle_error (ShapeMismatch (py "subtraction"))) app
  | _, _ => run (_handle_error (MissingOperands (py "subtraction"))) app
  end.
Proof.
  intros H. unfold sub.
  rewrite (run_with_operands _ app), H.
  destruct a as [ma|], b as [mb|]; try reflexivity.
  by destruct (shape_eqb (shape ma) (shape mb)).
Qed.

Lemma run_transpose app a b :
  Spec.operands app = inr (a, b) ->
  run transpose app =
  match Spec.selected app a b with
  | Some m => run (try_except (_show_matrix_result (T m)) _handle_error) app
  | None => run (_handle_error (MissingOperand (single_choice app))) app
  end.
Proof.
  intros H. unfold transpose.
  rewrite (run_with_choice _ app), H. unfold Spec.selected.
  by destruct (if str_eqb _ _ then a else b).
Qed.

Lemma run_determinant `{linalg : Linalg} app a b :
  Spec.operands app = inr (a, b) ->
  run determinant app =
  match Spec.selected app a b with
  | Some m =>
      if Nat.eqb (nrows m) (ncols m)
      then run (try_except (_show_scalar_result (det m) (py "Determinant"))
                           _handle_error) app
      else run (_handle_error NotSquare) app
  | None => run (_handle_error (MissingOperand (single_choice app))) app
  end.
Proof.
  intros H. unfold determinant.
  rewrite (run_with_choice _ app), H. unfold Spec.selected.
  destruct (if str_eqb _ _ then a else b) as [m|]; [|done].
  by destruct (Nat.eqb (nrows m) (ncols m)).
Qed.

(** An operation reports the error of the parser, if there is one. *)
Lemma run_parse_error `{linalg : Linalg} (h : action unit) app e :
  Spec.operation h -> Spec.operands app = inl e -> Spec.fails_with h app e.
Proof.
  unfold Spec.fails_with.
  intros [->|[->|[->|[->| ->]]]] H;
    [unfold add|unfold sub|unfold mul|unfold transpose|unfold determinant];
    first [rewrite (run_with_operands _ app) | rewrite (run_with_choice _ app)];
    by rewrite H.
Qed.

End OperationResults.

Section ProductFacts.

Import Numpy Tk MatrixToolApp.







End ProductFacts.

Section OperationClaims.

Import Numpy Tk MatrixToolApp.




(** C5 does not hold as stated: with 1e308 in both texts the shapes
    agree, yet Add returns no sum, and neither does Subtract with 1e308
    and -1e308: the sum and the difference are infinities in binary64,
    which the display cannot format. *)
Lemma add_sub_not_returned :
  ~ (forall app ma mb,
       Spec.operands app = inr (Some ma, Some mb) -> shape ma = shape mb ->
       current_result (run add app) = Some (Matrix (Numpy.add ma mb)))
  /\ ~ (forall app ma mb,
          Spec.operands app = inr (Some ma, Some mb) -> shape ma = shape mb ->
          current_result (run sub app) = Some (Matrix (Numpy.sub ma mb))).
Proof.
  split; intros H.
  - assert (Hops : exists x y,
              Spec.operands Further.ex_overflow
              = inr (Some (array [[x]]), Some (array [[y]]))).
    { eexists _, _. vm_compute. reflexivity. }
    destruct Hops as (x & y & Hops).
    specialize (H _ _ _ Hops eq_refl).
    assert (Hres : current_result (run add Further.ex_overflow) = None).
    { vm_compute. reflexivity. }
    rewrite Hres in H. discriminate H.
  - assert (Hops : exists x y,
              Spec.operands Further.ex_opposite
              = inr (Some (array [[x]]), Some (array [[y]]))).
    { eexists _, _. vm_compute. reflexivity. }
    destruct Hops as (x & y & Hops).
    specialize (H _ _ _ Hops eq_refl).
    assert (Hres : current_result (run sub Further.ex_opposite) = None).
    { vm_compute. reflexivity. }
    rewrite Hres in H. discriminate H.
Qed.

(** C5, amended. Once both texts are parsed, Add and Subtract fail with
    [MissingOperand] unless both operands are present, and with
    [ShapeMismatch] when the shapes differ (as 2x3 and 3x2 do); otherwise
    they compute the array of the operands' shape whose entry [i, j] is
    [A[i][j] + B[i][j]], respectively [A[i][j] - B[i][j]], and store it when
    its values are finite. *)
Theorem add_sub_spec app a b :
  Spec.operands app = inr (a, b) ->
  match a, b with
  | Some ma, Some mb =>
      if shape_eqb (shape ma) (shape mb)
      then (Spec.returns_matrix add app (Numpy.add ma mb)
            /\ Spec.returns_matrix sub app (Numpy.sub ma mb))
           /\ (shape (Numpy.add ma mb) = shape ma
               /\ shape (Numpy.sub ma mb) = shape ma)
           /\ (forall i j, (i < nrows ma)%nat -> (j < ncols ma)%nat ->
                 item (Numpy.add ma mb) i j
                 = Some (fadd (Spec.entry ma i j) (Spec.entry mb i j))
                 /\ item (Numpy.sub ma mb) i j
                    = Some (fsub (Spec.entry ma i j) (Spec.entry mb i j)))
           /\ (Spec.all_finite (Numpy.add ma mb) = true ->
               current_result (run add app) = Some (Matrix (Numpy.add ma mb)))
           /\ (Spec.all_finite (Numpy.sub ma mb) = true ->
               current_result (run sub app) = Some (Matrix (Numpy.sub ma mb)))
      else shape ma <> shape mb
           /\ Spec.fails_with add app (ShapeMismatch (py "addition"))
           /\ Spec.fails_with sub app (ShapeMismatch (py "subtraction"))
  | _, _ =>
      Spec.fails_with add app (MissingOperands (py "addition"))
      /\ Spec.fails_with sub app (MissingOperands (py "subtraction"))
  end
  /\ (forall ma mb, a = Some ma -> b = Some mb ->
        shape ma = (2, 3)%nat -> shape mb = (3, 2)%nat ->
        Spec.fails_with add app (ShapeMismatch (py "addition"))
        /\ Spec.fails_with sub app (ShapeMismatch (py "subtraction"))).
Proof.
  intros H. pose proof (run_add app a b H) as Hadd.
  pose proof (run_sub app a b H) as Hsub.
  destruct (operands_wf app a b H) as [Hwa Hwb].
  split.
  - destruct a as [ma|], b as [mb|]; try (split; [exact Hadd|exact Hsub]).
    specialize (Hwa ma eq_refl). specialize (Hwb mb eq_refl).
    destruct (shape_eqb (shape ma) (shape mb)) eqn:Hshape.
    + apply shape_eqb_eq in Hshape.
      split; [split; [exact Hadd|exact Hsub]|].
      split; [split; reflexivity|]. split; [|split].
      * intros i j Hi Hj. split.
        -- rewrite item_entry by (done || by apply wf_zip).
           f_equal. by apply entry_zip.
        -- rewrite item_entry by (done || by apply wf_zip).
           f_equal. by apply entry_zip.
      * intros Hfin. by apply (stored_matrix add).
      * intros Hfin. by apply (stored_matrix sub).
    + split; [|split; [exact Hadd|exact Hsub]].
      intros Heq%shape_eqb_eq. congruence.
  - intros ma mb -> -> Ha Hb. unfold Spec.fails_with.
    rewrite Hadd, Hsub, Ha, Hb. by split.
Qed.

Lemma add_sub_spec_witness :
  Spec.operands Examples.ex_app = inr (Some Examples.ex_a, Some Examples.ex_b)
  /\ current_result (run add Examples.ex_app) = Some (Matrix Examples.ex_sum)
  /\ current_result (run sub Examples.ex_app)
     = Some (Matrix Examples.ex_difference).
Proof.
  assert (H : Spec.operands Examples.ex_app
              = inr (Some Examples.ex_a, Some Examples.ex_b)).
  { vm_compute. reflexivity. }
  split; [exact H|].
  destruct (add_sub_spec Examples.ex_app _ _ H)
    as [(_ & _ & _ & Hadd & Hsub) _].
  split; [apply Hadd|apply Hsub]; vm_compute; reflexivity.
Defined.

(** C7 does not hold as stated: the text [1e999 1] in A parses, to an
    infinity and 1, and with the selector on A Transpose returns no grid:
    the display cannot format the infinity. *)
Lemma transpose_not_returned :
  ~ (forall app a b m,
       Spec.operands app = inr (a, b) -> Spec.selected app a b = Some m ->
       current_result (run transpose app) = Some (Matrix (T m))).
Proof.
  intros H.
  assert (Hops : exists x y,
            Spec.operands Further.ex_infinite
            = inr (Some (array [[x; y]]), None)).
  { eexists _, _. vm_compute. reflexivity. }
  destruct Hops as (x & y & Hops).
  specialize (H _ _ _ _ Hops eq_refl).
  assert (Hres : current_result (run transpose Further.ex_infinite) = None).
  { vm_compute. reflexivity. }
  rewrite Hres in H. discriminate H.
Qed.

(** C7, amended. Once both texts are parsed, Transpose fails with [MissingOperand]
    when the operand the selector chooses is absent; otherwise it computes
    the array of shape cols x rows whose entry [j, i] is the entry [i, j]
    of the operand, and stores it when its values are finite.  Transposing
    a rectangular grid twice gives it back, a square one in particular. *)
Theorem transpose_spec app a b :
  Spec.operands app = inr (a, b) ->
  match Spec.selected app a b with
  | None => Spec.fails_with transpose app (MissingOperand (single_choice app))
  | Some m =>
      Spec.returns_matrix transpose app (T m)
      /\ shape (T m) = (ncols m, nrows m)
      /\ (forall i j, (i < nrows m)%nat -> (j < ncols m)%nat ->
            item (T m) j i = item m i j)
      /\ (Spec.all_finite (T m) = true ->
          current_result (run transpose app) = Some (Matrix (T m)))
  end
  /\ (forall g, wf g -> T (T g) = g)
  /\ (forall g, wf g -> nrows g = ncols g -> T (T g) = g).
Proof.
  intros H. pose proof (run_transpose app a b H) as Hrun.
  destruct (operands_wf app a b H) as [Hwa Hwb].
  split; [|split; [exact T_involutive|intros g Hg _; by apply T_involutive]].
  assert (Hwf : forall m, Spec.selected app a b = Some m -> wf m).
  { unfold Spec.selected. destruct (str_eqb _ _); auto. }
  destruct (Spec.selected app a b) as [m|]; [|exact Hrun].
  specialize (Hwf m eq_refl).
  split; [exact Hrun|]. split; [reflexivity|]. split.
  - intros i j Hi Hj.
    rewrite !item_entry by (done || by apply wf_T).
    f_equal. by apply entry_T.
  - intros Hfin. by apply (stored_matrix transpose).
Qed.

Lemma transpose_spec_witness :
  Spec.operands Examples.ex_app = inr (Some Examples.ex_a, Some Examples.ex_b)
  /\ current_result (run transpose Examples.ex_app)
     = Some (Matrix (T Examples.ex_a)).
Proof.
  assert (H : Spec.operands Examples.ex_app
              = inr (Some Examples.ex_a, Some Examples.ex_b)).
  { vm_compute. reflexivity. }
  split; [exact H|].
  destruct (transpose_spec Examples.ex_app _ _ H) as [Hsel _].
  change (Spec.selected Examples.ex_app (Some Examples.ex_a)
                        (Some Examples.ex_b))
    with (Some Examples.ex_a) in Hsel.
  destruct Hsel as (_ & _ & _ & Hres). apply Hres. vm_compute. reflexivity.
Defined.

End OperationClaims.

Section DeterminantFacts.

Import Numpy Tk MatrixToolApp.

(** X14. Once both texts are parsed, Determinant fails with
    [MissingOperand] when the operand the selector chooses is absent, and
    with [NotSquare] when its rows and columns differ in number (as for
    every 2x3 grid), without calling the library.  For a square operand
    it shows, under the label Determinant, the formatted text of the
    float the library returns for that operand, and holds the float as
    the result, when the float is finite.  The float
    -2.0000000000000004, which numpy returns for [[1, 2], [3, 4]], is
    shown as -2. *)
Theorem determinant_checks `{linalg : Linalg} app a b :
  Spec.operands app = inr (a, b) ->
  match Spec.selected app a b with
  | None => Spec.fails_with determinant app (MissingOperand (single_choice app))
  | Some m =>
      if Nat.eqb (nrows m) (ncols m)
      then Spec.returns_scalar determinant app (det m) (py "Determinant")
           /\ (is_finite (det m) = true ->
               exists text,
                 _fmt (det m) = inr text
                 /\ result_frame (run determinant app)
                    = [Label (py "Determinant: " ++ text)]
                 /\ current_result (run determinant app)
                    = Some (Scalar (det m))
                 /\ dialogs (run determinant app) = dialogs app)
      else Spec.fails_with determinant app NotSquare
  end
  /\ (forall m, Spec.selected app a b = Some m -> shape m = (2, 3)%nat ->
        Spec.fails_with determinant app NotSquare)
  /\ _fmt Examples.ex_lu_det = inr (py "-2").
Proof.
  intros H. pose proof (run_determinant app a b H) as Hrun.
  split; [|split; [|vm_compute; reflexivity]].
  - destruct (Spec.selected app a b) as [m|]; [|exact Hrun].
    destruct (Nat.eqb (nrows m) (ncols m)); [|exact Hrun].
    split; [exact Hrun|]. intros [text Htext]%fmt_finite.
    exists text. split; [exact Htext|].
    by rewrite Hrun, (run_show_scalar _ _ text app Htext).
  - intros m Hm Hshape. unfold Spec.fails_with. rewrite Hrun, Hm.
    unfold nrows, ncols. by rewrite Hshape.
Qed.

Lemma determinant_checks_witness :
  Spec.operands Examples.ex_app = inr (Some Examples.ex_a, Some Examples.ex_b)
  /\ exists text,
       result_frame (run (determinant (linalg := in_order)) Examples.ex_app)
       = [Label (py "Determinant: " ++ text)].
Proof.
  assert (H : Spec.operands Examples.ex_app
              = inr (Some Examples.ex_a, Some Examples.ex_b)).
  { vm_compute. reflexivity. }
  split; [exact H|].
  destruct (determinant_checks (linalg := in_order) Examples.ex_app _ _ H)
    as [Hsel _].
  change (Spec.selected Examples.ex_app (Some Examples.ex_a)
                        (Some Examples.ex_b))
    with (Some Examples.ex_a) in Hsel.
  change (Nat.eqb (nrows Examples.ex_a) (ncols Examples.ex_a)) with true
    in Hsel.
  destruct Hsel as [_ Hsel].
  destruct Hsel as (text & _ & Hframe & _); [vm_compute; reflexivity|].
  by exists text.
Defined.

End DeterminantFacts.

Section FormatterClaim.

Import Numpy Tk MatrixToolApp.











End FormatterClaim.

Section ClipboardClaim.

Import Numpy Tk MatrixToolApp.

(** C9 does not hold as stated: after the Example and Add buttons the
    clipboard receives 10.0 for every value, which the formatter renders
    as 10. *)
Lemma copy_result_is_not_formatted :
  ~ (forall app m text,
       current_result app = Some (Matrix m) ->
       Spec.formatted_text m = inr text ->
       clipboard (run copy_result app) = text).
Proof.
  intros H.
  specialize (H (run add Examples.ex_app) Examples.ex_sum
                (py "10 10 10" ++ [LF] ++ py "10 10 10" ++ [LF] ++ py "10 10 10")).
  assert (Hclip : clipboard (run copy_result (run add Examples.ex_app))
                  = py "10.0 10.0 10.0" ++ [LF] ++ py "10.0 10.0 10.0"
                    ++ [LF] ++ py "10.0 10.0 10.0").
  { vm_compute. reflexivity. }
  rewrite Hclip in H.
  assert (Hneq : py "10.0 10.0 10.0" ++ [LF] ++ py "10.0 10.0 10.0"
                    ++ [LF] ++ py "10.0 10.0 10.0"
                 <> py "10 10 10" ++ [LF] ++ py "10 10 10" ++ [LF]
                    ++ py "10 10 10").
  { vm_compute. discriminate. }
  apply Hneq, H; vm_compute; reflexivity.
Qed.

(** C9, amended. Copying a grid result places on the clipboard its rows
    joined by line breaks, the values of a row joined by one space, every
    value rendered by [str] -- the shortest digits that read back as the
    value, as in 10.0 -- and not by the formatter; copying a scalar result
    places [str] of it. *)
Theorem copy_result_spec app v :
  current_result app = Some v ->
  clipboard (run copy_result app)
  = match v with
    | Matrix m =>
        join [LF] (map (fun r => join (py " ") (map str_of_float r)) (rows m))
    | Scalar x => str_of_float x
    end
  /\ dialogs (run copy_result app) = dialogs app
  /\ current_result (run copy_result app) = Some v.
Proof.
  intros H. unfold run, copy_result.
  cbv [mbind action_bind abind read update]. rewrite H.
  by destruct v.
Qed.

Lemma copy_result_spec_witness :
  current_result (run add Examples.ex_app) = Some (Matrix Examples.ex_sum)
  /\ clipboard (run copy_result (run add Examples.ex_app))
     = py "10.0 10.0 10.0" ++ [LF] ++ py "10.0 10.0 10.0"
       ++ [LF] ++ py "10.0 10.0 10.0".
Proof.
  assert (H : current_result (run add Examples.ex_app)
              = Some (Matrix Examples.ex_sum)).
  { vm_compute. reflexivity. }
  split; [exact H|].
  destruct (copy_result_spec _ _ H) as [-> _]. vm_compute. reflexivity.
Defined.

End ClipboardClaim.

Section ParseFirstClaim.

Import Numpy Tk MatrixToolApp.

(** C10. Every operation parses the text of A and then the text of B
    before it looks at its operands, whatever the selector says.  A text
    that is not blank and does not parse makes the operation fail with the
    error of the parser -- that of A; that of B when A is blank or parses
    -- also when the selector chooses the other matrix, and the error is
    never [EmptyInput].  A blank text yields an absent operand and no
    error. *)
Theorem parse_errors_come_first `{linalg : Linalg} app h :
  Spec.operation h ->
  (forall e,
     nonempty (strip (a_txt app ++ [LF])) = true ->
     parse_matrix (a_txt app ++ [LF]) = inl e ->
     Spec.fails_with h app e /\ e <> EmptyInput)
  /\ (forall e a,
        nonempty (strip (b_txt app ++ [LF])) = true ->
        parse_matrix (b_txt app ++ [LF]) = inl e ->
        Spec.operand_of (a_txt app ++ [LF]) = inr a ->
        Spec.fails_with h app e /\ e <> EmptyInput)
  /\ (forall text, nonempty (strip text) = false ->
                   Spec.operand_of text = inr None)
  /\ (forall a b, Spec.operands app = inr (a, b) ->
        Spec.operand_of (a_txt app ++ [LF]) = inr a
        /\ Spec.operand_of (b_txt app ++ [LF]) = inr b).
Proof.
  intros Hop. split; [|split; [|split]].
  - intros e Hne He. split.
    + apply (run_parse_error h app e Hop).
      assert (Ha : Spec.operand_of (a_txt app ++ [LF]) = inl e).
      { unfold Spec.operand_of. by rewrite Hne, He. }
      by rewrite operands_eq, Ha.
    + intros ->. by apply (parse_matrix_not_empty _ Hne).
  - intros e a Hne He Ha. split.
    + apply (run_parse_error h app e Hop).
      assert (Hb : Spec.operand_of (b_txt app ++ [LF]) = inl e).
      { unfold Spec.operand_of. by rewrite Hne, He. }
      by rewrite operands_eq, Ha, Hb.
    + intros ->. by apply (parse_matrix_not_empty _ Hne).
  - intros text Hblank. unfold Spec.operand_of. by rewrite Hblank.
  - apply operands_inv.
Qed.

Lemma parse_errors_come_first_witness :
  Spec.operation (linalg := in_order) transpose
  /\ Spec.fails_with transpose Examples.ex_bad_b (NonNumericToken (py "1 x"))
  /\ Spec.fails_with (determinant (linalg := in_order)) Examples.ex_bad_b
                     (NonNumericToken (py "1 x")).
Proof.
  assert (Ht : Spec.operation (linalg := in_order) transpose).
  { right; right; right; left; reflexivity. }
  assert (Hd : Spec.operation (linalg := in_order)
                              (determinant (linalg := in_order))).
  { right; right; right; right; reflexivity. }
  split; [exact Ht|]. split.
  - destruct (parse_errors_come_first Examples.ex_bad_b transpose Ht)
      as (_ & Hb & _).
    apply (Hb _ None); vm_compute; reflexivity.
  - destruct (parse_errors_come_first Examples.ex_bad_b _ Hd)
      as (_ & Hb & _).
    apply (Hb _ None); vm_compute; reflexivity.
Defined.

End ParseFirstClaim.

(* ===================================================================== *)
(** ** Further properties of the parser and the printer *)
(* ===================================================================== *)

Section ParserFurther.

Import Numpy.

Lemma parse_matrix_spaces text : spaces text -> parse_matrix text = inl EmptyInput.
Proof.
  intros H. unfold parse_matrix, stripped_lines.
  by rewrite (strip_spaces text H).
Qed.

Lemma not_spaces_nonempty text : ~ spaces text -> nonempty (strip text) = true.
Proof.
  intros H. destruct (strip text) eqn:E; [|done].
  by apply strip_nil in E.
Qed.

(** X1. The parser reports an empty input exactly for the texts that hold
    whitespace only (the empty text among them). *)
Theorem parse_matrix_empty_iff text :
  parse_matrix text = inl EmptyInput <-> spaces text.
Proof.
  split; [|apply parse_matrix_spaces].
  intros H. destruct (forallb isspace text) eqn:E; [exact E|].
  exfalso. apply (parse_matrix_not_empty text); [|exact H].
  apply not_spaces_nonempty. unfold spaces. congruence.
Qed.

Lemma parse_matrix_empty_iff_witness :
  spaces (py "  " ++ [LF] ++ py " ")
  /\ parse_matrix (py "  " ++ [LF] ++ py " ") = inl EmptyInput.
Proof.
  assert (H : spaces (py "  " ++ [LF] ++ py " ")) by reflexivity.
  split; [exact H|].
  exact (proj2 (parse_matrix_empty_iff _) H).
Defined.

(** X2. The parser raises nothing but its three errors, and when it
    reports a line, that line is a line of the text that is not blank,
    quoted trimmed, with a token that [float] rejects. *)
Theorem parse_matrix_errors text e :
  parse_matrix text = inl e ->
  e = EmptyInput \/ e = RaggedRows
  \/ exists ln, e = NonNumericToken (strip ln)
                /\ In ln (splitlines text)
                /\ Spec.blank ln = false
                /\ Exists (fun t => float_of_str t = None) (Spec.tokens ln).
Proof.
  rewrite parse_matrix_spec. unfold Spec.grid_of.
  destruct (Spec.rows_text text) as [|l ls] eqn:E; [intros [= <-]; auto|].
  destruct (List.find _ _) as [ln|] eqn:Hfind.
  - intros [= <-]. right. right. exists ln.
    apply find_some in Hfind as [Hin Hbad]. rewrite <- E in Hin.
    unfold Spec.rows_text in Hin. apply filter_In in Hin as [Hin Hblank].
    split; [done|]. split; [done|]. split; [by apply negb_true_iff|].
    unfold Spec.non_numeric, Spec.row_of in Hbad.
    destruct (mapM float_of_str (Spec.tokens ln)) eqn:Hm; [done|].
    by apply mapM_None.
  - destruct (Spec.same_length _); [done|]. intros [= <-]. auto.
Qed.

Lemma parse_matrix_errors_witness :
  parse_matrix (py "1 2" ++ [LF] ++ py " 3 x ") = inl (NonNumericToken (py "3 x"))
  /\ (NonNumericToken (py "3 x") = EmptyInput
      \/ NonNumericToken (py "3 x") = RaggedRows
      \/ exists ln, NonNumericToken (py "3 x") = NonNumericToken (strip ln)
                    /\ In ln (splitlines (py "1 2" ++ [LF] ++ py " 3 x "))
                    /\ Spec.blank ln = false
                    /\ Exists (fun t => float_of_str t = None) (Spec.tokens ln)).
Proof.
  assert (H : parse_matrix (py "1 2" ++ [LF] ++ py " 3 x ")
              = inl (NonNumericToken (py "3 x"))).
  { vm_compute. reflexivity. }
  split; [exact H|]. exact (parse_matrix_errors _ _ H).
Defined.

Lemma rows_of_all lines :
  List.find Spec.non_numeric lines = None ->
  Forall2 (fun ln r => Spec.row_of ln = Some r) lines (omap Spec.row_of lines).
Proof.
  induction lines as [|ln lines IH]; [constructor|]. simpl.
  unfold Spec.non_numeric at 1.
  destruct (Spec.row_of ln) as [r|] eqn:E; [|done].
  intros H. constructor; auto.
Qed.

Lemma row_of_length ln r :
  Spec.row_of ln = Some r -> length r = length (Spec.tokens ln).
Proof. unfold Spec.row_of. intros H. symmetry. by eapply length_mapM. Qed.

(** What a successful parse returns, in terms of the lines of the text. *)
Lemma parse_matrix_inv text m :
  parse_matrix text = inr m ->
  Forall2 (fun ln r => Spec.row_of ln = Some r) (Spec.rows_text text) (rows m)
  /\ wf m /\ (1 <= nrows m)%nat.
Proof.
  intros H. split; [|by eapply parse_matrix_wf].
  revert H. rewrite parse_matrix_spec. unfold Spec.grid_of.
  destruct (Spec.rows_text text) as [|l ls]; [done|].
  destruct (List.find _ _) eqn:Hfind; [done|].
  destruct (Spec.same_length _); [|done].
  intros [= <-]. by apply rows_of_all.
Qed.

(** X3. A grid the parser returns has one row for each line of the text
    that is not blank, in their order, and the row holds the parsed tokens
    of its line, no more and no fewer; the grid is rectangular and has a
    row at least.  It has no column exactly when no such line holds a
    token. *)
Theorem parse_matrix_rows text m :
  parse_matrix text = inr m ->
  Forall2 (fun ln r => Spec.row_of ln = Some r) (Spec.rows_text text) (rows m)
  /\ wf m
  /\ nrows m = length (Spec.rows_text text)
  /\ (1 <= nrows m)%nat
  /\ Forall (fun ln => length (Spec.tokens ln) = ncols m) (Spec.rows_text text)
  /\ (ncols m = 0%nat <->
      Forall (fun ln => Spec.tokens ln = []) (Spec.rows_text text)).
Proof.
  intros H. destruct (parse_matrix_inv text m H) as (Hrows & Hwf & Hn).
  assert (Hlen : Forall (fun ln => length (Spec.tokens ln) = ncols m)
                        (Spec.rows_text text)).
  { destruct Hwf as [_ Hcols]. revert Hcols.
    induction Hrows as [|ln r lines rs Hr _ IH]; [constructor|].
    intros [Hc Hcs]%Forall_cons. constructor; [|by apply IH].
    apply row_of_length in Hr. congruence. }
  split; [done|]. split; [done|]. split.
  { destruct Hwf as [<- _]. symmetry. by eapply Forall2_length. }
  split; [done|]. split; [done|]. split.
  - intros H0. eapply Forall_impl; [exact Hlen|]. simpl.
    intros ln Hln. rewrite H0 in Hln. by destruct (Spec.tokens ln).
  - intros Hall.
    assert (Hne : Spec.rows_text text <> []).
    { intros Hnil. rewrite Hnil in Hrows. apply Forall2_nil_inv_l in Hrows.
      destruct Hwf as [Hl _]. rewrite Hrows in Hl. simpl in Hl. lia. }
    destruct (Spec.rows_text text) as [|ln lines]; [done|].
    apply Forall_cons in Hall as [Hln _]. apply Forall_cons in Hlen as [Hl _].
    by rewrite Hln in Hl.
Qed.

Lemma parse_matrix_rows_witness :
  parse_matrix Further.ex_padded = inr (Examples.ints [[1; 2]; [3; 4]])
  /\ nrows (Examples.ints [[1; 2]; [3; 4]])
     = length (Spec.rows_text Further.ex_padded).
Proof.
  assert (H : parse_matrix Further.ex_padded
              = inr (Examples.ints [[1; 2]; [3; 4]])).
  { vm_compute. reflexivity. }
  split; [exact H|].
  by destruct (parse_matrix_rows _ _ H) as (_ & _ & Hn & _).
Defined.

Lemma parse_matrix_strip text text' :
  strip text = strip text' -> parse_matrix text = parse_matrix text'.
Proof. intros H. unfold parse_matrix, stripped_lines. by rewrite H. Qed.

(** X4. Whitespace before and after the text -- spaces, blank lines, the
    line break a text area appends -- changes nothing of what the parser
    returns or raises. *)
Theorem parse_matrix_padding w1 w2 text :
  spaces w1 -> spaces w2 ->
  parse_matrix (w1 ++ text ++ w2) = parse_matrix text.
Proof.
  intros H1 H2. apply parse_matrix_strip.
  by rewrite strip_app_l, strip_app_r.
Qed.

Lemma parse_matrix_padding_witness :
  spaces [LF] /\ spaces (py "  " ++ [LF])
  /\ parse_matrix ([LF] ++ py "1 2" ++ (py "  " ++ [LF]))
     = parse_matrix (py "1 2").
Proof.
  assert (H1 : spaces [LF]) by reflexivity.
  assert (H2 : spaces (py "  " ++ [LF])) by reflexivity.
  split; [exact H1|]. split; [exact H2|].
  exact (parse_matrix_padding _ _ (py "1 2") H1 H2).
Defined.

End ParserFurther.

Section CommaFacts.

Import Numpy.

Lemma replace_comma_char c :
  islinebreak (if Ascii.eqb c "," then " "%char else c) = islinebreak c
  /\ Ascii.eqb (if Ascii.eqb c "," then " "%char else c) LF = Ascii.eqb c LF
  /\ Ascii.eqb (if Ascii.eqb c "," then " "%char else c) CR = Ascii.eqb c CR.
Proof.
  destruct (Ascii.eqb c ",") eqn:E; [|done].
  apply Ascii.eqb_eq in E. by subst c.
Qed.

(** The lines of a text with spaces for commas are the lines of the text
    with spaces for commas. *)
Lemma splitlines_from_replace s : forall cr cur,
  splitlines_from cr (replace "," " " cur) (replace "," " " s)
  = map (replace "," " ") (splitlines_from cr cur s).
Proof.
  assert (Hrev : forall cur : str,
            rev (replace "," " " cur) = replace "," " " (rev cur)).
  { intros cur. unfold replace. by rewrite map_rev. }
  induction s as [|c s IH]; intros cr cur.
  - destruct cur as [|d cur]; [done|].
    change ([rev (replace "," " " (d :: cur))]
            = [replace "," " " (rev (d :: cur))]).
    by rewrite Hrev.
  - cbn [replace map splitlines_from].
    destruct (replace_comma_char c) as (-> & -> & ->).
    destruct (cr && Ascii.eqb c LF); [apply IH|].
    destruct (islinebreak c).
    + cbn [map]. rewrite <- Hrev. f_equal. apply (IH _ []).
    + apply (IH false (c :: cur)).
Qed.

Lemma splitlines_replace text :
  splitlines (replace "," " " text) = map (replace "," " ") (splitlines text).
Proof. exact (splitlines_from_replace text false []). Qed.

Lemma tokens_from_replace_comma s : forall cur,
  Spec.tokens_from cur (replace "," " " s) = Spec.tokens_from cur s.
Proof.
  induction s as [|c s IH]; intros cur; [done|].
  cbn [replace map Spec.tokens_from].
  destruct (Ascii.eqb c ",") eqn:E.
  - apply Ascii.eqb_eq in E. subst c.
    change (Spec.separator " ") with true.
    change (Spec.separator ",") with true. cbv iota.
    by rewrite !IH.
  - by rewrite !IH.
Qed.

Lemma row_of_replace ln : Spec.row_of (replace "," " " ln) = Spec.row_of ln.
Proof.
  unfold Spec.row_of, Spec.tokens. by rewrite tokens_from_replace_comma.
Qed.

Lemma separators_no_token s :
  Further.separators s -> Spec.tokens_from [] s = [].
Proof.
  unfold Further.separators.
  induction s as [|c s IH]; [done|]. simpl.
  intros [Hc Hs]%andb_true_iff. rewrite Hc. auto.
Qed.

Lemma blank_replace_separators ln :
  Spec.blank (replace "," " " ln) = true -> Further.separators ln.
Proof.
  unfold Spec.blank, Further.separators, Spec.separator.
  induction ln as [|c ln IH]; [done|]. simpl.
  intros [Hc Hln]%andb_true_iff. rewrite (IH Hln), andb_true_r.
  destruct (Ascii.eqb c ","); [apply orb_true_r|]. by rewrite Hc.
Qed.

Lemma blank_replace ln :
  Spec.blank ln = true -> Spec.blank (replace "," " " ln) = true.
Proof.
  unfold Spec.blank.
  induction ln as [|c ln IH]; [done|]. simpl.
  intros [Hc Hln]%andb_true_iff. rewrite (IH Hln), andb_true_r.
  destruct (Ascii.eqb c ",") eqn:E; [done|exact Hc].
Qed.

(** Filtering commutes with a map that keeps the test on the lines
    kept or dropped. *)
Lemma filter_map_agree {A} (p : A -> bool) (f : A -> A) (l : list A) :
  Forall (fun x => p (f x) = p x) l ->
  List.filter p (map f l) = map f (List.filter p l).
Proof.
  induction 1 as [|x l Hx _ IH]; [done|]. simpl. rewrite Hx, IH.
  by destruct (p x).
Qed.

Lemma find_map_agree {A} (p : A -> bool) (f : A -> A) (l : list A) :
  (forall x, p (f x) = p x) -> List.find p l = None ->
  List.find p (map f l) = None.
Proof.
  intros Hp. induction l as [|x l IH]; [done|]. simpl. rewrite Hp.
  destruct (p x); [done|exact IH].
Qed.

Lemma omap_map_agree {A B} (g : A -> option B) (f : A -> A) (l : list A) :
  (forall x, g (f x) = g x) -> omap g (map f l) = omap g l.
Proof.
  intros Hg. induction l as [|x l IH]; [done|].
  change (omap g (map f (x :: l)))
    with (match g (f x) with
          | Some y => y :: omap g (map f l)
          | None => omap g (map f l)
          end).
  change (omap g (x :: l))
    with (match g x with Some y => y :: omap g l | None => omap g l end).
  by rewrite Hg, IH.
Qed.

(** X5. When the parser returns a grid with a column at least, it returns
    the same grid for the text with every comma replaced by a space. *)
Theorem parse_matrix_commas text m :
  parse_matrix text = inr m -> (1 <= ncols m)%nat ->
  parse_matrix (replace "," " " text) = inr m.
Proof.
  intros H Hcols.
  destruct (parse_matrix_inv text m H) as (Hrows & Hwf & Hn).
  assert (Htok : Forall (fun ln => Spec.tokens ln <> []) (Spec.rows_text text)).
  { destruct Hwf as [_ Hlen]. revert Hlen.
    induction Hrows as [|ln r lines rs Hr _ IH]; [constructor|].
    intros [Hc Hcs]%Forall_cons. constructor; [|by apply IH].
    apply row_of_length in Hr. intros Hnil. rewrite Hnil in Hr.
    simpl in Hr. lia. }
  assert (Hlines : Spec.rows_text (replace "," " " text)
                   = map (replace "," " ") (Spec.rows_text text)).
  { unfold Spec.rows_text in *. rewrite splitlines_replace.
    apply (filter_map_agree (fun ln => negb (Spec.blank ln))).
    apply Forall_forall. intros ln Hin%list_elem_of_In. f_equal.
    destruct (Spec.blank ln) eqn:Hb; [by apply blank_replace|].
    apply not_true_is_false. intros Hb'%blank_replace_separators.
    apply separators_no_token in Hb'.
    eapply Forall_forall in Htok; [by apply Htok|].
    apply list_elem_of_In, filter_In. by rewrite Hb. }
  revert H. rewrite !parse_matrix_spec. unfold Spec.grid_of. rewrite Hlines.
  destruct (Spec.rows_text text) as [|l ls]; [done|].
  destruct (List.find _ (l :: ls)) eqn:Hfind; [done|].
  assert (Hfind' : List.find Spec.non_numeric (map (replace "," " ") (l :: ls))
                   = None).
  { apply find_map_agree; [|done].
    intros x. unfold Spec.non_numeric. by rewrite row_of_replace. }
  pose proof (omap_map_agree Spec.row_of (replace "," " ") (l :: ls)
                             row_of_replace) as Homap.
  cbn [map] in *. by rewrite Hfind', Homap.
Qed.

Lemma parse_matrix_commas_witness :
  parse_matrix (py "1,2, 3") = inr (Examples.ints [[1; 2; 3]])
  /\ parse_matrix (replace "," " " (py "1,2, 3"))
     = inr (Examples.ints [[1; 2; 3]]).
Proof.
  assert (H : parse_matrix (py "1,2, 3") = inr (Examples.ints [[1; 2; 3]])).
  { vm_compute. reflexivity. }
  split; [exact H|].
  apply (parse_matrix_commas _ _ H). vm_compute. lia.
Defined.

Lemma join_empty_lines (ls : list str) :
  Forall (fun l => l = []) ls -> spaces (join [LF] ls).
Proof.
  induction 1 as [|l ls -> Hls IH]; [done|].
  destruct ls as [|l' ls]; [done|].
  change (join [LF] ([] :: l' :: ls)) with (LF :: join [LF] (l' :: ls)).
  apply spaces_cons. by split.
Qed.

(** X6. An array without columns is printed as a text of line breaks
    only, which the parser rejects as empty: the text of a grid that the
    parser returned for lines of commas does not parse back. *)
Theorem matrix_to_text_no_column m :
  wf m -> ncols m = 0%nat ->
  spaces (matrix_to_text m)
  /\ parse_matrix (matrix_to_text m) = inl EmptyInput.
Proof.
  intros [_ Hrows] H0.
  assert (Hsp : spaces (matrix_to_text m)).
  { unfold matrix_to_text. apply join_empty_lines.
    apply Forall_forall. intros l (r & -> & Hr)%list_elem_of_fmap.
    eapply Forall_forall in Hrows; [|exact Hr].
    rewrite H0 in Hrows. by destruct r. }
  split; [exact Hsp|]. by apply parse_matrix_spaces.
Qed.

Lemma matrix_to_text_no_column_witness :
  parse_matrix (py "," ++ [LF] ++ py ", ,")
  = inr (array [[]; []])
  /\ parse_matrix (matrix_to_text (array [[]; []])) = inl EmptyInput.
Proof.
  split; [vm_compute; reflexivity|].
  apply (matrix_to_text_no_column (array [[]; []])); [|reflexivity].
  split; [reflexivity|]. repeat constructor.
Defined.

End CommaFacts.

(* ===================================================================== *)
(** ** Further properties of the formatter and the handlers *)
(* ===================================================================== *)

Section HandlerFurther.

Import Numpy Tk MatrixToolApp.

(** X7. The formatter raises exactly on the floats that are not finite:
    [ValueError] on NaN and [OverflowError] on an infinity, each from the
    conversion of [round]; on every finite float it returns a text. *)
Theorem fmt_raises x e :
  _fmt x = inl e <->
  (x = S754_nan /\ e = Further.NaNToInteger)
  \/ (exists s, x = S754_infinity s /\ e = Further.InfinityToInteger).
Proof.
  destruct x as [s|s| |s m ex].
  - destruct (fmt_finite (S754_zero s) eq_refl) as [t Ht]. rewrite Ht.
    split; [done|]. intros [[? _]|(? & ? & _)]; done.
  - change (_fmt (S754_infinity s)) with (@inl exn str Further.InfinityToInteger).
    split.
    + intros [= <-]. right. by exists s.
    + intros [[? _]|(? & _ & ->)]; done.
  - change (_fmt S754_nan) with (@inl exn str Further.NaNToInteger).
    split.
    + intros [= <-]. by left.
    + intros [[_ ->]|(? & ? & _)]; done.
  - destruct (fmt_finite (S754_finite s m ex) eq_refl) as [t Ht]. rewrite Ht.
    split; [done|]. intros [[? _]|(? & ? & _)]; done.
Qed.

Lemma fmt_raises_witness :
  _fmt (S754_infinity true) = inl Further.InfinityToInteger.
Proof.
  apply (proj2 (fmt_raises (S754_infinity true) Further.InfinityToInteger)).
  right. by exists true.
Defined.

Lemma fmt_not_finite x :
  is_finite x = false ->
  exists e, _fmt x = inl e
            /\ (e = Further.NaNToInteger \/ e = Further.InfinityToInteger).
Proof.
  destruct x as [s|s| |s m ex]; try done; intros _.
  - exists Further.InfinityToInteger. by split; [|right].
  - exists Further.NaNToInteger. by split; [|left].
Qed.

Lemma mapM_result_fail {A B} (P : exn -> Prop) (f : A -> result B)
      (l : list A) :
  (forall x e, f x = inl e -> P e) ->
  Exists (fun x => exists e, f x = inl e) l ->
  exists e, mapM f l = inl e /\ P e.
Proof.
  intros HP. induction l as [|x l IH]; intros H.
  - by apply Exists_nil in H.
  - simpl. destruct (f x) as [e|y] eqn:Hx.
    + exists e. split; [done|]. eauto.
    + simpl. destruct IH as (e & He & HPe).
      * apply Exists_cons in H as [[e He]|H]; [congruence|done].
      * exists e. rewrite He. by split.
Qed.

Lemma forallb_false_Exists {A} (p : A -> bool) (l : list A) :
  forallb p l = false -> Exists (fun x => p x = false) l.
Proof.
  induction l as [|x l IH]; [done|]. simpl.
  destruct (p x) eqn:Hx; [|by left]. intros H. right. auto.
Qed.

Lemma fmt_rows_fail (m : ndarray) :
  Spec.all_finite m = false ->
  exists e, mapM (fun r => mapM _fmt r) (rows m) = inl e
            /\ (e = Further.NaNToInteger \/ e = Further.InfinityToInteger).
Proof.
  intros H. apply forallb_false_Exists in H.
  assert (Hfmt : forall x e, _fmt x = inl e ->
            e = Further.NaNToInteger \/ e = Further.InfinityToInteger).
  { intros x e [[_ ->]|(_ & _ & ->)]%fmt_raises; auto. }
  apply (mapM_result_fail _ (fun r => mapM _fmt r)).
  - intros r e Hr.
    destruct (mapM_result_fail
                (fun e => e = Further.NaNToInteger
                          \/ e = Further.InfinityToInteger) _fmt r Hfmt)
      as (e' & He' & HP).
    + clear H. induction r as [|x r IH]; [done|]. simpl in Hr.
      destruct (_fmt x) as [e0|t] eqn:Hx; [left; eauto|]. right.
      simpl in Hr. apply IH. destruct (mapM _fmt r); [done|]. done.
    + congruence.
  - eapply Exists_impl; [exact H|]. simpl. intros r Hr.
    apply forallb_false_Exists in Hr.
    destruct (mapM_result_fail (fun _ => True) _fmt r) as (e & He & _);
      [done| |eauto].
    eapply Exists_impl; [exact Hr|]. simpl. intros x Hx.
    destruct (fmt_not_finite x Hx) as (e & He & _). eauto.
Qed.

Lemma run_show_matrix_fail m e app :
  mapM (fun r => mapM _fmt r) (rows m) = inl e ->
  run (try_except (_show_matrix_result m) _handle_error) app
  = run (_handle_error e) (set_result_frame [] app).
Proof.
  intros H. unfold run, try_except, _show_matrix_result.
  cbv [mbind action_bind abind lift update]. simpl. rewrite H. reflexivity.
Qed.

Lemma run_show_scalar_fail x label e app :
  _fmt x = inl e ->
  run (try_except (_show_scalar_result x label) _handle_error) app
  = run (_handle_error e) (set_result_frame [] app).
Proof.
  intros H. unfold run, try_except, _show_scalar_result.
  cbv [mbind action_bind abind lift update]. simpl. rewrite H. reflexivity.
Qed.

(** X8. When the array or the float an operation computed holds an
    infinity or a NaN, nothing is shown: the handler reports the
    conversion error of [round], leaves the result frame empty and keeps
    the result held before. *)
Theorem display_fails_on_not_finite (h : action unit) app :
  (forall m, Spec.returns_matrix h app m -> Spec.all_finite m = false ->
     exists e, (e = Further.NaNToInteger \/ e = Further.InfinityToInteger)
               /\ Further.reports e app (run h app)
               /\ result_frame (run h app) = [])
  /\ (forall x label, Spec.returns_scalar h app x label ->
        is_finite x = false ->
        exists e, (e = Further.NaNToInteger \/ e = Further.InfinityToInteger)
                  /\ Further.reports e app (run h app)
                  /\ result_frame (run h app) = []).
Proof.
  split.
  - intros m -> (e & He & Hkind)%fmt_rows_fail. exists e.
    rewrite (run_show_matrix_fail m e app He). by repeat split.
  - intros x label -> (e & He & Hkind)%fmt_not_finite. exists e.
    rewrite (run_show_scalar_fail x label e app He). by repeat split.
Qed.

Lemma display_fails_on_not_finite_witness :
  Spec.returns_matrix add Further.ex_overflow (array [[S754_infinity false]])
  /\ Further.reports Further.InfinityToInteger Further.ex_overflow
                     (run add Further.ex_overflow)
  /\ result_frame (run add Further.ex_overflow) = [].
Proof.
  assert (H : Spec.returns_matrix add Further.ex_overflow
                                  (array [[S754_infinity false]])).
  { vm_compute. reflexivity. }
  split; [exact H|].
  destruct (display_fails_on_not_finite add Further.ex_overflow) as [Hm _].
  destruct (Hm _ H eq_refl) as (e & _ & _ & Hframe).
  split; [|exact Hframe]. vm_compute. repeat split.
Defined.

End HandlerFurther.

Section OperationFurther.

Import Numpy Tk MatrixToolApp.

(** The operands depend on the two texts only. *)
Lemma operands_same_inputs app app' :
  Further.same_inputs app app' -> Spec.operands app' = Spec.operands app.
Proof. intros (Ha & Hb & _). rewrite !operands_eq. by rewrite Ha, Hb. Qed.

Lemma show_matrix_effect m :
  exists f, forall app,
    run (try_except (_show_matrix_result m) _handle_error) app
    = Further.apply_effect f app.
Proof.
  destruct (mapM (fun r => mapM _fmt r) (rows m)) as [e|items] eqn:E.
  - exists (Further.ReportCleared e). intros app.
    by apply run_show_matrix_fail.
  - exists (Further.ShowMatrix m items). intros app.
    by apply run_show_matrix.
Qed.

Lemma show_scalar_effect x label :
  exists f, forall app,
    run (try_except (_show_scalar_result x label) _handle_error) app
    = Further.apply_effect f app.
Proof.
  destruct (_fmt x) as [e|text] eqn:E.
  - exists (Further.ReportCleared e). intros app.
    by apply run_show_scalar_fail.
  - exists (Further.ShowScalar x label text). intros app.
    by apply run_show_scalar.
Qed.

(** What an operation does is fixed by the texts and the selector. *)
Lemma operation_effect `{linalg : Linalg} h app :
  Spec.operation h ->
  exists f, forall app',
    Further.same_inputs app app' -> run h app' = Further.apply_effect f app'.
Proof.
  intros Hop.
  destruct (Spec.operands app) as [e|[a b]] eqn:Hops.
  { exists (Further.Report e). intros app' Hin.
    apply (run_parse_error h app' e Hop).
    by rewrite (operands_same_inputs app app' Hin). }
  assert (Hops' : forall app', Further.same_inputs app app' ->
                               Spec.operands app' = inr (a, b)).
  { intros app' Hin. by rewrite (operands_same_inputs app app' Hin). }
  assert (Hsel : forall app', Further.same_inputs app app' ->
            Spec.selected app' a b = Spec.selected app a b
            /\ single_choice app' = single_choice app).
  { intros app' (_ & _ & Hc). unfold Spec.selected. by rewrite Hc. }
  destruct Hop as [->|[->|[->|[->| ->]]]].
  - destruct a as [ma|], b as [mb|];
      try (exists (Further.Report (MissingOperands (py "addition")));
           intros app' Hin; by rewrite (run_add app' _ _ (Hops' app' Hin))).
    destruct (shape_eqb (shape ma) (shape mb)) eqn:Hs.
    + destruct (show_matrix_effect (Numpy.add ma mb)) as [f Hf]. exists f.
      intros app' Hin. by rewrite (run_add app' _ _ (Hops' app' Hin)), Hs.
    + exists (Further.Report (ShapeMismatch (py "addition"))).
      intros app' Hin. by rewrite (run_add app' _ _ (Hops' app' Hin)), Hs.
  - destruct a as [ma|], b as [mb|];
      try (exists (Further.Report (MissingOperands (py "subtraction")));
           intros app' Hin; by rewrite (run_sub app' _ _ (Hops' app' Hin))).
    destruct (shape_eqb (shape ma) (shape mb)) eqn:Hs.
    + destruct (show_matrix_effect (Numpy.sub ma mb)) as [f Hf]. exists f.
      intros app' Hin. by rewrite (run_sub app' _ _ (Hops' app' Hin)), Hs.
    + exists (Further.Report (ShapeMismatch (py "subtraction"))).
      intros app' Hin. by rewrite (run_sub app' _ _ (Hops' app' Hin)), Hs.
  - destruct a as [ma|], b as [mb|];
      try (exists (Further.Report (MissingOperands (py "multiplication")));
           intros app' Hin; by rewrite (run_mul app' _ _ (Hops' app' Hin))).
    destruct (Nat.eqb (ncols ma) (nrows mb)) eqn:Hs.
    + destruct (show_matrix_effect (dot ma mb)) as [f Hf]. exists f.
      intros app' Hin. by rewrite (run_mul app' _ _ (Hops' app' Hin)), Hs.
    + exists (Further.Report InnerDimMismatch).
      intros app' Hin. by rewrite (run_mul app' _ _ (Hops' app' Hin)), Hs.
  - destruct (Spec.selected app a b) as [m|] eqn:Hm.
    + destruct (show_matrix_effect (T m)) as [f Hf]. exists f.
      intros app' Hin. destruct (Hsel app' Hin) as [Hs _].
      by rewrite (run_transpose app' _ _ (Hops' app' Hin)), Hs, ?Hm.
    + exists (Further.Report (MissingOperand (single_choice app))).
      intros app' Hin. destruct (Hsel app' Hin) as [Hs Hc].
      by rewrite (run_transpose app' _ _ (Hops' app' Hin)), Hs, ?Hm, Hc.
  - destruct (Spec.selected app a b) as [m|] eqn:Hm.
    + destruct (Nat.eqb (nrows m) (ncols m)) eqn:Hsq.
      * destruct (show_scalar_effect (det m) (py "Determinant")) as [f Hf].
        exists f. intros app' Hin. destruct (Hsel app' Hin) as [Hs _].
        by rewrite (run_determinant app' _ _ (Hops' app' Hin)), Hs, ?Hm, Hsq.
      * exists (Further.Report NotSquare).
        intros app' Hin. destruct (Hsel app' Hin) as [Hs _].
        by rewrite (run_determinant app' _ _ (Hops' app' Hin)), Hs, ?Hm, Hsq.
    + exists (Further.Report (MissingOperand (single_choice app))).
      intros app' Hin. destruct (Hsel app' Hin) as [Hs Hc].
      by rewrite (run_determinant app' _ _ (Hops' app' Hin)), Hs, ?Hm, Hc.
Qed.

Lemma same_inputs_refl app : Further.same_inputs app app.
Proof. by repeat split. Qed.

Lemma apply_effect_inputs f app :
  Further.same_inputs app (Further.apply_effect f app)
  /\ clipboard (Further.apply_effect f app) = clipboard app.
Proof. by destruct f. Qed.

(** X9. Whatever the texts hold, an operation never touches the two text
    areas, the selector or the clipboard, and it ends in one of two ways:
    either it shows a result -- one widget in the result frame, a result
    held, no dialog -- or it reports one error in a dialog and in the
    status line and keeps the result held before, the result frame being
    as before or, when the display failed, empty. *)
Theorem operation_outcome `{linalg : Linalg} h app :
  Spec.operation h ->
  Further.same_inputs app (run h app)
  /\ clipboard (run h app) = clipboard app
  /\ ((dialogs (run h app) = dialogs app
       /\ (exists v, current_result (run h app) = Some v)
       /\ (exists w, result_frame (run h app) = [w]))
      \/ (exists e, Further.reports e app (run h app)
                    /\ (result_frame (run h app) = result_frame app
                        \/ result_frame (run h app) = []))).
Proof.
  intros Hop. destruct (operation_effect h app Hop) as [f Hf].
  rewrite (Hf app (same_inputs_refl app)).
  destruct (apply_effect_inputs f app) as [Hin Hclip].
  split; [exact Hin|]. split; [exact Hclip|].
  destruct f as [e|e|m items|x label text].
  - right. exists e. split; [by repeat split|by left].
  - right. exists e. split; [by repeat split|by right].
  - left. split; [done|]. split; eexists; reflexivity.
  - left. split; [done|]. split; eexists; reflexivity.
Qed.

Lemma operation_outcome_witness :
  Spec.operation (linalg := in_order) (mul (linalg := in_order))
  /\ Further.same_inputs Examples.ex_app
                         (run (mul (linalg := in_order)) Examples.ex_app)
  /\ clipboard (run (mul (linalg := in_order)) Examples.ex_app)
     = clipboard Examples.ex_app.
Proof.
  assert (H : Spec.operation (linalg := in_order) (mul (linalg := in_order)))
    by (right; right; left; reflexivity).
  split; [exact H|].
  destruct (operation_outcome _ Examples.ex_app H) as (Hin & Hclip & _).
  by split.
Defined.

(** X10. The result an operation shows is a function of the two texts and
    the selector: two states of the application that agree on them get
    the same result, frame and status when the operation succeeds on one
    of them, and running an operation a second time changes nothing of
    the result, the frame and the status, also after a failure. *)
Theorem operation_repeatable `{linalg : Linalg} h app :
  Spec.operation h ->
  Further.same_display (run h app) (run h (run h app))
  /\ (forall app', Further.same_inputs app app' ->
        dialogs (run h app) = dialogs app ->
        Further.same_display (run h app) (run h app')
        /\ dialogs (run h app') = dialogs app').
Proof.
  intros Hop. destruct (operation_effect h app Hop) as [f Hf].
  pose proof (Hf app (same_inputs_refl app)) as Hrun.
  split.
  - rewrite (Hf (run h app)) by (rewrite Hrun; apply apply_effect_inputs).
    rewrite Hrun. by destruct f.
  - intros app' Hin Hd. rewrite (Hf app' Hin), Hrun. rewrite Hrun in Hd.
    destruct f as [e|e|m items|x label text]; try by repeat split.
    + simpl in Hd. exfalso. apply (f_equal (@length _)) in Hd.
      rewrite length_app in Hd. simpl in Hd. lia.
    + simpl in Hd. exfalso. apply (f_equal (@length _)) in Hd.
      rewrite length_app in Hd. simpl in Hd. lia.
Qed.

Lemma operation_repeatable_witness :
  Spec.operation (linalg := in_order) add
  /\ Further.same_display (run add Examples.ex_app)
                          (run add (run add Examples.ex_app)).
Proof.
  assert (H : Spec.operation (linalg := in_order) add) by (left; reflexivity).
  split; [exact H|].
  by destruct (operation_repeatable add Examples.ex_app H) as [Hrep _].
Defined.

End OperationFurther.

Section ClipboardFurther.

Import Numpy Tk MatrixToolApp.

(** The text of a valid grid whose values read back parses to the grid. *)
Lemma matrix_text_parses (g : ndarray) :
  Spec.valid_grid g ->
  forallb (forallb Spec.reads_back) (rows g) = true ->
  parse_matrix (matrix_to_text g) = inr g.
Proof.
  intros (Hwf & Hn & Hm) Hrb.
  assert (Hrows : Forall (fun r => r <> [] /\
                                   forallb Spec.reads_back r = true) (rows g)).
  { rewrite forallb_forall in Hrb. destruct Hwf as [_ Hlen].
    apply Forall_forall. intros r Hr. split.
    - eapply Forall_forall in Hlen; [|exact Hr].
      intros ->. simpl in Hlen. lia.
    - apply Hrb. by apply list_elem_of_In. }
  assert (Hne : rows g <> []).
  { destruct Hwf as [Hlen _]. intros Hnil. rewrite Hnil in Hlen.
    simpl in Hlen. lia. }
  rewrite parse_matrix_spec. unfold Spec.grid_of, matrix_to_text.
  change (map (fun r => join (py " ") (map str_of_float r)) (rows g))
    with (map Spec.line_of (rows g)).
  rewrite rows_text_lines by done.
  destruct (rows_of_lines (rows g)) as [Hfind Homap].
  { eapply Forall_impl; [exact Hrows|]. by intros r [_ H]. }
  destruct (map Spec.line_of (rows g)) as [|l ls] eqn:E.
  - by destruct (rows g).
  - rewrite Hfind, Homap, same_length_wf by done.
    unfold ret. f_equal. by apply array_rows.
Qed.

(** X11. The text that Copy Result places on the clipboard for a grid
    (valid, and of values that [str] prints as tokens that [float] reads
    back) parses to that grid; pasted into a text area, it is read by the
    handlers as that very operand. *)
Theorem copied_text_parses app m :
  current_result app = Some (Matrix m) ->
  Spec.valid_grid m ->
  forallb (forallb Spec.reads_back) (rows m) = true ->
  parse_matrix (clipboard (run copy_result app)) = inr m
  /\ Spec.operand_of (clipboard (run copy_result app) ++ [LF]) = inr (Some m).
Proof.
  intros Hres Hvalid Hrb.
  assert (Hclip : clipboard (run copy_result app) = matrix_to_text m).
  { unfold run, copy_result. cbv [mbind action_bind abind read update].
    by rewrite Hres. }
  rewrite Hclip. pose proof (matrix_text_parses m Hvalid Hrb) as Hparse.
  split; [exact Hparse|].
  assert (Hstrip : strip (matrix_to_text m ++ [LF]) = strip (matrix_to_text m)).
  { by apply strip_app_r. }
  unfold Spec.operand_of.
  rewrite (parse_matrix_strip _ _ Hstrip), Hparse, Hstrip.
  destruct (strip (matrix_to_text m)) eqn:E; [|done].
  apply strip_nil, parse_matrix_spaces in E. congruence.
Qed.

Lemma copied_text_parses_witness :
  current_result (run add Examples.ex_app) = Some (Matrix Examples.ex_sum)
  /\ Spec.operand_of (clipboard (run copy_result (run add Examples.ex_app))
                      ++ [LF])
     = inr (Some Examples.ex_sum).
Proof.
  assert (H : current_result (run add Examples.ex_app)
              = Some (Matrix Examples.ex_sum)).
  { vm_compute. reflexivity. }
  split; [exact H|].
  apply (copied_text_parses _ _ H).
  - split; [split; [reflexivity|repeat constructor]|split; vm_compute; lia].
  - vm_compute. reflexivity.
Defined.

Lemma operand_of_spaces text :
  spaces text -> Spec.operand_of (text ++ [LF]) = inr None.
Proof.
  intros H. unfold Spec.operand_of.
  rewrite strip_spaces; [done|]. apply spaces_app. by split.
Qed.

(** X12. When both text areas hold whitespace only -- as when the
    application starts and after Clear -- no text is parsed and every
    operation reports a missing operand: both matrices for the binary
    operations, the selected one for Transpose and Determinant.  After
    Clear no result is held, so that Copy Result only tells so and leaves
    the clipboard as it was. *)
Theorem blank_texts_miss_operands `{linalg : Linalg} app :
  (spaces (a_txt app) -> spaces (b_txt app) ->
     Spec.operands app = inr (None, None)
     /\ Spec.fails_with add app (MissingOperands (py "addition"))
     /\ Spec.fails_with sub app (MissingOperands (py "subtraction"))
     /\ Spec.fails_with mul app (MissingOperands (py "multiplication"))
     /\ Spec.fails_with transpose app (MissingOperand (single_choice app))
     /\ Spec.fails_with determinant app (MissingOperand (single_choice app)))
  /\ a_txt (run clear_all app) = [] /\ b_txt (run clear_all app) = []
  /\ current_result (run clear_all app) = None
  /\ clipboard (run copy_result (run clear_all app)) = clipboard app
  /\ dialogs (run copy_result (run clear_all app))
     = dialogs app ++ [showinfo (py "Info") (py "No result to copy")].
Proof.
  split; [|by repeat split].
  intros Ha Hb.
  assert (H : Spec.operands app = inr (None, None)).
  { by rewrite operands_eq, (operand_of_spaces _ Ha), (operand_of_spaces _ Hb). }
  split; [exact H|]. unfold Spec.fails_with.
  rewrite (run_add app _ _ H), (run_sub app _ _ H), (run_mul app _ _ H),
    (run_transpose app _ _ H), (run_determinant app _ _ H).
  unfold Spec.selected. by destruct (str_eqb _ _).
Qed.

Lemma blank_texts_miss_operands_witness :
  spaces (a_txt (init [])) /\ spaces (b_txt (init []))
  /\ Spec.fails_with (determinant (linalg := in_order)) (init [])
                     (MissingOperand (py "A")).
Proof.
  assert (Ha : spaces (a_txt (init []))) by reflexivity.
  assert (Hb : spaces (b_txt (init []))) by reflexivity.
  split; [exact Ha|]. split; [exact Hb|].
  destruct (blank_texts_miss_operands (linalg := in_order) (init [])) as [H _].
  by destruct (H Ha Hb) as (_ & _ & _ & _ & _ & Hdet).
Defined.

End ClipboardFurther.

Section DisplayFurther.

Import Numpy Tk MatrixToolApp.

Lemma mapM_inr {A B} (f : A -> result B) (l : list A) : forall ys,
  mapM f l = inr ys -> Forall2 (fun x y => f x = inr y) l ys.
Proof.
  induction l as [|x l IH]; intros ys; simpl.
  - intros [= <-]. constructor.
  - destruct (f x) as [e|y] eqn:Hx; [done|]. simpl.
    destruct (mapM f l) as [e|ys'] eqn:Hl; [done|]. simpl.
    intros [= <-]. constructor; auto.
Qed.

(** X13. When an operation computed an array of finite values (with rows
    as its shape says), the tree view it shows has one heading for each
    column and one item for each row, in order, and every cell of an item
    is the text the formatter gives for the value at that place. *)
Theorem shown_tree_matches (h : action unit) app m :
  Spec.returns_matrix h app m -> wf m -> Spec.all_finite m = true ->
  exists headings items,
    result_frame (run h app) = [Treeview headings items]
    /\ length headings = ncols m
    /\ length items = nrows m
    /\ Forall (fun item => length item = ncols m) items
    /\ Forall2 (Forall2 (fun x text => _fmt x = inr text)) (rows m) items.
Proof.
  intros Hret [Hlen Hrows] [items Hitems]%fmt_rows.
  rewrite Hret, (run_show_matrix m items app Hitems).
  eexists _, items. split; [reflexivity|].
  assert (Hcells : Forall2 (Forall2 (fun x text => _fmt x = inr text))
                           (rows m) items).
  { apply mapM_inr in Hitems. eapply Forall2_impl; [exact Hitems|].
    simpl. intros r item Hr. by apply mapM_inr. }
  split; [by rewrite length_map, length_seq|].
  split; [by rewrite <- (Forall2_length _ _ _ Hcells)|].
  split; [|exact Hcells].
  clear Hlen Hitems. induction Hcells as [|r item rs its Hr _ IH]; [constructor|].
  apply Forall_cons in Hrows as [Hc Hcs]. constructor; [|by apply IH].
  by rewrite <- (Forall2_length _ _ _ Hr).
Qed.

Lemma shown_tree_matches_witness :
  Spec.returns_matrix (mul (linalg := in_order)) Examples.ex_app
                      Examples.ex_product
  /\ exists headings items,
       result_frame (run (mul (linalg := in_order)) Examples.ex_app)
       = [Treeview headings items]
       /\ length headings = 3%nat /\ length items = 3%nat.
Proof.
  assert (H : Spec.returns_matrix (mul (linalg := in_order)) Examples.ex_app
                                  Examples.ex_product).
  { vm_compute. reflexivity. }
  split; [exact H|].
  destruct (shown_tree_matches _ Examples.ex_app Examples.ex_product H)
    as (headings & items & Hframe & Hh & Hi & _).
  - split; [reflexivity|repeat constructor].
  - vm_compute. reflexivity.
  - exists headings, items. by repeat split.
Defined.

End DisplayFurther.

Section SpecAgreement.

Import Numpy.





End SpecAgreement.
